(** * SvxLink cores: Goertzel tone detector, hierarchical state machine,
      audio splitter

    A shallow embedding of
    - [src/svxlink/rx/ToneDetector.cpp]   (module [Tone]),
    - [AsyncStateMachine.h]               (module [HFSM]),
    - the [AudioSplitter] back-pressure algorithm (module [Splitter]),
    together with the properties stated about them. *)

From Stdlib Require Import String ZArith List Bool Lia.
From Stdlib Require Import Floats.PrimFloat Numbers.Cyclic.Int63.Uint63.
Import ListNotations.

Set Implicit Arguments.

(* ====================================================================== *)
(** * The tone detector ([ToneDetector.cpp]) *)
(* ====================================================================== *)

Module Tone.

Local Open Scope Z_scope.

(** [FLOATING] is a typedef of [ToneDetector.h].  The detector only adds,
    subtracts, multiplies and compares such numbers and converts integers
    to them, so the development is generic in the number type; no algebraic
    law is assumed of it, so everything proved below holds of IEEE floating
    point in particular ([binary64] is the instance used for evaluation). *)
Class Floating (F : Type) : Type := {
  fadd : F -> F -> F;
  fsub : F -> F -> F;
  fmul : F -> F -> F;
  fdiv : F -> F -> F;
  of_int : Z -> F;             (* conversion of an integer value *)
  fge : F -> F -> bool;        (* [>=] *)
  flt : F -> F -> bool         (* [<]  *)
}.

(** The signals of the class: [valueChanged(this, result)] and
    [activated(bool)]. *)
Inductive Signal (F : Type) : Type :=
| valueChanged (r : F)
| activated (on : bool).
Arguments activated {F} on.

Section Detector.

Context {F : Type} {FL : Floating F}.

(** [#define SAMPLING_RATE 8000.0] and [#define THRESHOLD 5000000.0]. *)
Definition SAMPLING_RATE : F := of_int 8000.
Definition THRESHOLD : F := of_int 5000000.

(** The data members used by [ToneDetector.cpp]. *)
Record ToneDetector : Type := mkToneDetector {
  tone : Z;
  N : Z;
  coeff : F;
  sine : F;
  cosine : F;
  Q1 : F;
  Q2 : F;
  block_pos : Z;
  is_activated : Z;
  result : F;
  tone_fq : Z
}.

(** [void ToneDetector::resetGoertzel(void)]. *)
Definition resetGoertzel (d : ToneDetector) : ToneDetector :=
  mkToneDetector (tone d) (N d) (coeff d) (sine d) (cosine d)
    (of_int 0) (of_int 0)
    (block_pos d) (is_activated d) (result d) (tone_fq d).

(** The constructor.  [sin], [cos] and [M_PI] come from the C library. *)
Section Constructor.

Variables (sin cos : F -> F) (PI : F).

Definition ToneDetector_ctor (tone_hz base_N : Z) : ToneDetector :=
  let floatN := of_int base_N in
  let k := fdiv (fmul floatN (of_int tone_hz)) SAMPLING_RATE in
  let omega := fdiv (fmul (fmul (of_int 2) PI) k) floatN in
  let cosine := cos omega in
  resetGoertzel
    (mkToneDetector tone_hz base_N (fmul (of_int 2) cosine) (sin omega)
       cosine (of_int 0) (of_int 0) 0 0 (of_int 0) tone_hz).

End Constructor.

(** A detector as the constructor leaves it, for a given coefficient. *)
Definition fresh (c : F) (base_N : Z) : ToneDetector :=
  mkToneDetector 0 base_N c (of_int 0) (of_int 0) (of_int 0) (of_int 0)
    0 0 (of_int 0) 0.

(** [unsigned char usample = ((int)sample + 0x8000) >> 8;]
    The assignment to [unsigned char] reduces modulo 256. *)
Definition usample (sample : Z) : Z :=
  Z.shiftr (sample + 0x8000) 8 mod 256.

(** The value range of [short], the element type of [buf]. *)
Definition is_short (x : Z) : Prop := -32768 <= x <= 32767.

(** [void ToneDetector::processSample(SAMPLE sample)]. *)
Definition processSample (d : ToneDetector) (sample : Z) : ToneDetector :=
  let Q0 := fadd (fsub (fmul (coeff d) (Q1 d)) (Q2 d))
                 (of_int (usample sample)) in
  mkToneDetector (tone d) (N d) (coeff d) (sine d) (cosine d)
    Q0 (Q1 d)
    (block_pos d) (is_activated d) (result d) (tone_fq d).

(** [FLOATING ToneDetector::getMagnitudeSquared(void)]. *)
Definition getMagnitudeSquared (d : ToneDetector) : F :=
  fsub (fadd (fmul (Q1 d) (Q1 d)) (fmul (Q2 d) (Q2 d)))
       (fmul (fmul (Q1 d) (Q2 d)) (coeff d)).

(** The threshold test of [processSamples] (the [if]/[else if] on
    [result]): the new value of [is_activated] and the [activated]
    emissions. *)
Definition threshold_test (r : F) (ia : Z) : Z * list (Signal F) :=
  if fge r THRESHOLD then
    (3, if ia =? 0 then [activated true] else [])
  else if negb (ia =? 0) && flt r THRESHOLD then
    let ia' := ia - 1 in
    (ia', if ia' =? 0 then [activated false] else [])
  else (ia, []).

(** One iteration of the [for] loop of [processSamples]. *)
Definition sample_step (d : ToneDetector) (sample : Z)
  : ToneDetector * list (Signal F) :=
  let d1 := processSample d sample in
  let pos := block_pos d1 + 1 in
  if pos >=? N d1 then
    let r := getMagnitudeSquared d1 in
    let '(ia, sigs) := threshold_test r (is_activated d1) in
    (mkToneDetector (tone d1) (N d1) (coeff d1) (sine d1) (cosine d1)
       (of_int 0) (of_int 0) 0 ia r (tone_fq d1),
     valueChanged r :: sigs)
  else
    (mkToneDetector (tone d1) (N d1) (coeff d1) (sine d1) (cosine d1)
       (Q1 d1) (Q2 d1) pos (is_activated d1) (result d1) (tone_fq d1),
     []).

(** [int ToneDetector::processSamples(short *buf, int len)]: the detector
    after the loop and the signals emitted, in order.  [buf] is the list of
    the [len] samples. *)
Fixpoint processSamples (d : ToneDetector) (buf : list Z)
  : ToneDetector * list (Signal F) :=
  match buf with
  | [] => (d, [])
  | sample :: rest =>
      let '(d1, s1) := sample_step d sample in
      let '(d2, s2) := processSamples d1 rest in
      (d2, s1 ++ s2)
  end.

(** Its return value, [len]. *)
Definition processSamples_ret (buf : list Z) : Z := Z.of_nat (length buf).

(** The Goertzel sum of one block of samples: the recurrence run from
    [Q1 = Q2 = 0] over the block, then [getMagnitudeSquared]. *)
Definition block_result (c : F) (block : list Z) : F :=
  getMagnitudeSquared (fold_left processSample block (fresh c 0)).

(** The detector after a block that ended with magnitude [r]. *)
Definition after_block (d : ToneDetector) (r : F) : ToneDetector :=
  mkToneDetector (tone d) (N d) (coeff d) (sine d) (cosine d)
    (of_int 0) (of_int 0) 0 (fst (threshold_test r (is_activated d))) r
    (tone_fq d).

(** A detector between two blocks, as the constructor and every completed
    block leave it. *)
Definition at_block_start (d : ToneDetector) : Prop :=
  block_pos d = 0 /\ Q1 d = of_int 0 /\ Q2 d = of_int 0.

End Detector.

Arguments ToneDetector F : clear implicits.

(** IEEE 754 binary64 ([double]) as the number type. *)
Definition double_of_int (z : Z) : float :=
  if (z <? 0)%Z then PrimFloat.opp (PrimFloat.of_uint63 (Uint63.of_Z (- z)))
  else PrimFloat.of_uint63 (Uint63.of_Z z).

#[export] Instance double_Floating : Floating float := {|
  fadd := PrimFloat.add;
  fsub := PrimFloat.sub;
  fmul := PrimFloat.mul;
  fdiv := PrimFloat.div;
  of_int := double_of_int;
  fge := fun x y => PrimFloat.leb y x;
  flt := PrimFloat.ltb
|}.

(** The values carried by the [valueChanged] signals, and the arguments of
    the [activated] signals, of a signal trace. *)
Fixpoint values {F : Type} (l : list (Signal F)) : list F :=
  match l with
  | [] => []
  | valueChanged r :: l' => r :: values l'
  | activated _ :: l' => values l'
  end.

Fixpoint activations {F : Type} (l : list (Signal F)) : list bool :=
  match l with
  | [] => []
  | valueChanged _ :: l' => activations l'
  | activated b :: l' => b :: activations l'
  end.

Section Hysteresis.

Context {F : Type} {FL : Floating F}.

(** A block whose magnitude does not reach the threshold. *)
Definition low (r : F) : Prop := fge r THRESHOLD = false.

(** Every [activated(false)] of a trace comes right after the
    [valueChanged] of three blocks in a row below the threshold, and these
    after an [activated(true)]. *)
Definition release_after_three (t : list (Signal F)) : Prop :=
  forall p q,
    t = p ++ activated false :: q ->
    exists p' a b c,
      p = p' ++ [valueChanged a; valueChanged b; valueChanged c]
      /\ low a /\ low b /\ low c /\ In (activated true) p'.

(** What [is_activated] records about the trace emitted so far. *)
Definition hysteresis_inv (ia : Z) (t : list (Signal F)) : Prop :=
  release_after_three t
  /\ (ia = 0
      \/ (ia = 3 /\ In (activated true) t)
      \/ (ia = 2 /\ exists p a,
             t = p ++ [valueChanged a] /\ low a /\ In (activated true) p)
      \/ (ia = 1 /\ exists p a b,
             t = p ++ [valueChanged a; valueChanged b]
             /\ low a /\ low b /\ In (activated true) p)).

End Hysteresis.

(** A list of [activated] arguments that strictly alternates and starts
    with [next]. *)
Fixpoint alternating (next : bool) (l : list bool) : Prop :=
  match l with
  | [] => True
  | b :: l' => b = next /\ alternating (negb next) l'
  end.

(** The coefficient [2 cos (pi/4)] of a 1000 Hz detector, in binary64. *)
Definition coeff_1000Hz : float := 0x1.6a09e667f3bcdp+0%float.

(** A 1000 Hz detector over binary64, as the constructor leaves it. *)
Definition d1000 (n : Z) : ToneDetector float := fresh coeff_1000Hz n.

End Tone.

(* ====================================================================== *)
(** * The hierarchical state machine ([AsyncStateMachine.h]) *)
(* ====================================================================== *)

Module HFSM.

(** A state class.  [struct T : StateTopBase<ContextT,T>::Type] declares the
    top state ([Type] is [StateBase<StateTopBase<ContextT,T>,T>]) and
    [struct T : StateBase<ParentT,T>] a state below [ParentT]; a class is
    thus its own name together with its chain of base classes. *)
Inductive StateClass : Type :=
| TopState (T : string)
| SubState (ParentT : StateClass) (T : string).

Definition StateClass_eq_dec (a b : StateClass) : {a = b} + {a <> b}.
Proof. decide equality; apply string_dec. Defined.

(** [typeid(a) == typeid(b)]. *)
Definition typeid_eqb (a b : StateClass) : bool :=
  if StateClass_eq_dec a b then true else false.

(** [derives c T]: class [c] is [T] or has [T] among its bases. *)
Fixpoint derives (c T : StateClass) : bool :=
  if typeid_eqb c T then true
  else match c with
       | TopState _ => false
       | SubState ParentT _ => derives ParentT T
       end.

(** A heap-allocated state object: its address and its dynamic type.
    Addresses are never reused. *)
Record StateObj : Type := mkObj { addr : nat; typeId : StateClass }.

(** Pointers to state objects; [None] is [nullptr]. *)
Definition ptr_eqb (p q : option StateObj) : bool :=
  match p, q with
  | None, None => true
  | Some a, Some b => Nat.eqb (addr a) (addr b)
  | _, _ => false
  end.

(** [dynamic_cast<T*>(p) != nullptr]. *)
Definition dynamic_cast (T : StateClass) (p : option StateObj) : bool :=
  match p with
  | None => false
  | Some o => derives (typeId o) T
  end.

(** Modelled from the spec: [Async::Timer] ([AsyncTimer.h] is not part of
    the sources), the reactor's timer with [set_enable(bool)] and an
    [expired] signal that only an enabled timer emits.  [Timer m_timer = -1]
    starts with no timeout pending. *)
Record Timer : Type := mkTimer { timeout_ms : Z; is_enabled : bool }.

Definition Timer_init : Timer := mkTimer (-1) false.

(** What a run of the code can come to. *)
Inductive Result (A : Type) : Type :=
| Done (a : A)
| Diverge            (* the model ran out of fuel *)
| Fault.             (* a failed [assert] or a null dereference *)
Arguments Diverge {A}.
Arguments Fault {A}.

(** The calls a run makes, in order. *)
Inductive Event : Type :=
| EvNew (o : StateObj)                      (* [new NewStateT] *)
| EvInit (o : StateObj)                     (* [init()] *)
| EvExit (o : StateObj) (T : StateClass)    (* [T::exit()] on object [o] *)
| EvInstall (o : StateObj)                  (* [m_state = state] *)
| EvEntry (o : StateObj) (T : StateClass)   (* [T::entry()] on object [o] *)
| EvDelete (o : StateObj)                   (* [delete] *)
| EvTimeout (o : StateObj).                 (* [timeoutEvent()] *)

Section Machine.

(** The user's context type. *)
Variable ContextT : Type.

(** The body of an [entry] or [exit] function: it may use the context and
    the timer; "it is not allowed to initiate any state transitions in this
    function". *)
Inductive Hook : Type :=
| HRet
| HSetTimeout (ms : Z) (k : Hook)
| HClearTimeout (k : Hook)
| HGetCtx (k : ContextT -> Hook)
| HPutCtx (c : ContextT) (k : Hook).

(** The body of an [init] function or of an event function: it may also
    call [setState<NewStateT>()]. *)
Inductive Code : Type :=
| Ret
| SetState (NewStateT : StateClass) (k : Code)
| SetTimeout (ms : Z) (k : Code)
| ClearTimeout (k : Code)
| GetCtx (k : ContextT -> Code)
| PutCtx (c : ContextT) (k : Code).

(** The functions the user's state classes define.  [timeoutEvent T] is
    [None] when [T] does not override [timeoutEvent]: the final overrider
    is then [StateBase<ParentT,T>::timeoutEvent], a failing [assert]. *)
Variable init : StateClass -> Code.
Variable entry : StateClass -> Hook.
Variable exit : StateClass -> Hook.
Variable timeoutEvent : StateClass -> option Code.

(** The data members of [StateMachine], the allocator's next address and
    the calls made so far. *)
Record StateMachine : Type := mkSM {
  m_state : option StateObj;
  m_ctx : ContextT;
  m_timer : Timer;
  next_addr : nat;
  log : list Event
}.

(** [StateMachine(ContextT* ctx)]. *)
Definition StateMachine_ctor (ctx : ContextT) : StateMachine :=
  mkSM None ctx Timer_init 0 [].

Definition emit (e : Event) (m : StateMachine) : StateMachine :=
  mkSM (m_state m) (m_ctx m) (m_timer m) (next_addr m) (log m ++ [e]).

Definition set_m_state (p : option StateObj) (m : StateMachine)
  : StateMachine :=
  mkSM p (m_ctx m) (m_timer m) (next_addr m) (log m).

Definition set_m_ctx (c : ContextT) (m : StateMachine) : StateMachine :=
  mkSM (m_state m) c (m_timer m) (next_addr m) (log m).

(** [void setTimeout(int timeout_ms)]. *)
Definition setTimeout (ms : Z) (m : StateMachine) : StateMachine :=
  mkSM (m_state m) (m_ctx m) (mkTimer ms true) (next_addr m) (log m).

(** [void clearTimeout(void)]. *)
Definition clearTimeout (m : StateMachine) : StateMachine :=
  mkSM (m_state m) (m_ctx m) (mkTimer (timeout_ms (m_timer m)) false)
    (next_addr m) (log m).

(** [new NewStateT]: the fresh object and the machine after the
    allocation. *)
Definition new_state (NewStateT : StateClass) (m : StateMachine)
  : StateObj * StateMachine :=
  let o := mkObj (next_addr m) NewStateT in
  (o, emit (EvNew o)
        (mkSM (m_state m) (m_ctx m) (m_timer m) (S (next_addr m)) (log m))).

(** [delete p]; deleting [nullptr] does nothing. *)
Definition delete (p : option StateObj) (m : StateMachine) : StateMachine :=
  match p with
  | None => m
  | Some o => emit (EvDelete o) m
  end.

Fixpoint run_hook (h : Hook) (m : StateMachine) : StateMachine :=
  match h with
  | HRet => m
  | HSetTimeout ms k => run_hook k (setTimeout ms m)
  | HClearTimeout k => run_hook k (clearTimeout m)
  | HGetCtx k => run_hook (k (m_ctx m)) m
  | HPutCtx c k => run_hook k (set_m_ctx c m)
  end.

(** [StateBase<ParentT,T>::entryHandler(from)], called on object [this];
    [StateTopBase::entryHandler] does nothing. *)
Fixpoint entryHandler (T : StateClass) (this : StateObj)
    (from : option StateObj) (m : StateMachine) : StateMachine :=
  if dynamic_cast T from then m
  else
    let m1 := match T with
              | TopState _ => m
              | SubState ParentT _ => entryHandler ParentT this from m
              end in
    run_hook (entry T) (emit (EvEntry this T) m1).

(** [StateBase<ParentT,T>::exitHandler(to)], called on object [this];
    [StateTopBase::exitHandler] does nothing. *)
Fixpoint exitHandler (T : StateClass) (this : StateObj)
    (to : option StateObj) (m : StateMachine) : StateMachine :=
  if dynamic_cast T to then m
  else
    let m1 := clearTimeout m in
    let m2 := run_hook (exit T) (emit (EvExit this T) m1) in
    match T with
    | TopState _ => m2
    | SubState ParentT _ => exitHandler ParentT this to m2
    end.

(** Running the body of an [init] or event function; [set_state] is what
    a call of [setState] does. *)
Fixpoint exec (set_state : StateClass -> StateMachine -> Result StateMachine)
    (c : Code) (m : StateMachine) : Result StateMachine :=
  match c with
  | Ret => Done m
  | SetState NewStateT k =>
      match set_state NewStateT m with
      | Done m' => exec set_state k m'
      | Diverge => Diverge
      | Fault => Fault
      end
  | SetTimeout ms k => exec set_state k (setTimeout ms m)
  | ClearTimeout k => exec set_state k (clearTimeout m)
  | GetCtx k => exec set_state (k (m_ctx m)) m
  | PutCtx c' k => exec set_state k (set_m_ctx c' m)
  end.

(** The part of [setState] after [initHandler] has returned. *)
Definition finish_transition (old_state : option StateObj)
    (state : StateObj) (m : StateMachine) : StateMachine :=
  if negb (ptr_eqb old_state (m_state m)) then
    delete (Some state) m
  else
    let m1 := match old_state with
              | Some o => exitHandler (typeId o) o (Some state) m
              | None => m
              end in
    let m2 := emit (EvInstall state) (set_m_state (Some state) m1) in
    let m3 := entryHandler (typeId state) state old_state m2 in
    delete old_state m3.

(** [template <class NewStateT> void setState(NewStateT* state=new NewStateT)].
    [init] may call [setState] again, without bound: [fuel] limits the
    nesting. *)
Fixpoint setState (fuel : nat) (NewStateT : StateClass) (m : StateMachine)
  : Result StateMachine :=
  match fuel with
  | O => Diverge
  | S fuel' =>
      let '(state, m0) := new_state NewStateT m in
      let old_state := m_state m0 in
      if match old_state with
         | Some o => typeid_eqb NewStateT (typeId o)
         | None => false
         end
      then Done (delete (Some state) m0)
      else
        match exec (setState fuel') (init NewStateT)
                (emit (EvInit state) m0) with
        | Done m1 => Done (finish_transition old_state state m1)
        | Diverge => Diverge
        | Fault => Fault
        end
  end.

(** [StateBase<ParentT,T>::initHandler] on the candidate [state]. *)
Definition initHandler (fuel : nat) (state : StateObj) (m : StateMachine)
  : Result StateMachine :=
  exec (setState fuel) (init (typeId state)) (emit (EvInit state) m).

(** [void start(void)], for the top state class [StateTopT]. *)
Definition start (fuel : nat) (StateTopT : StateClass) (m : StateMachine)
  : Result StateMachine :=
  setState fuel StateTopT m.

(** [template <class T> bool isActive(void) const] dereferences [m_state]. *)
Definition isActive (T : StateClass) (m : StateMachine) : Result bool :=
  match m_state m with
  | None => Fault
  | Some o => Done (typeid_eqb T (typeId o))
  end.

(** [StateTopT& state(void)] dereferences [m_state]. *)
Definition state (m : StateMachine) : Result StateObj :=
  match m_state m with
  | None => Fault
  | Some o => Done o
  end.

(** The handler connected to [m_timer.expired] in the constructor; the
    reactor runs it when the timer, enabled, expires. *)
Definition timer_expired (fuel : nat) (m : StateMachine)
  : Result StateMachine :=
  if is_enabled (m_timer m) then
    match m_state m with
    | None => Fault
    | Some o =>
        match timeoutEvent (typeId o) with
        | None => Fault
        | Some body =>
            match exec (setState fuel) body (emit (EvTimeout o) m) with
            | Done m' => Done (clearTimeout m')
            | Diverge => Diverge
            | Fault => Fault
            end
        end
    end
  else Done m.

End Machine.

(** ** The hierarchy, in the words of the specification *)

(** A class and its ancestors, bottom-up. *)
Fixpoint chain (T : StateClass) : list StateClass :=
  T :: match T with
       | TopState _ => []
       | SubState ParentT _ => chain ParentT
       end.

Definition on_chain (P T : StateClass) : bool :=
  existsb (typeid_eqb P) (chain T).

(** The nearest common ancestor of [A] and [B]: the first class on [A]'s
    chain, from [A] upwards, that is on [B]'s chain too.  A class counts
    among its own ancestors here, so that the nearest common ancestor of a
    state and one of its substates is the state itself. *)
Definition nearest_common_ancestor (A B : StateClass) : option StateClass :=
  find (fun P => on_chain P B) (chain A).

(** The classes on [T]'s chain strictly below [P], bottom-up. *)
Fixpoint strictly_below (P : StateClass) (l : list StateClass)
  : list StateClass :=
  match l with
  | [] => []
  | X :: l' => if typeid_eqb X P then [] else X :: strictly_below P l'
  end.

Definition below (P T : StateClass) : list StateClass :=
  strictly_below P (chain T).

(** The number of state classes above a class. *)
Fixpoint depth (T : StateClass) : nat :=
  match T with
  | TopState _ => 0
  | SubState ParentT _ => S (depth ParentT)
  end.

(** ** What the handlers call *)

(** The classes whose [exit] a call of [T]'s [exitHandler(to)] runs, in
    order, and those whose [entry] a call of [T]'s [entryHandler(from)]
    runs, in order. *)
Fixpoint exits_of (T : StateClass) (to : option StateObj)
  : list StateClass :=
  if dynamic_cast T to then []
  else T :: match T with
            | TopState _ => []
            | SubState ParentT _ => exits_of ParentT to
            end.

Fixpoint entries_of (T : StateClass) (from : option StateObj)
  : list StateClass :=
  if dynamic_cast T from then []
  else match T with
       | TopState _ => []
       | SubState ParentT _ => entries_of ParentT from
       end ++ [T].

Section Invariants.

Variable ContextT : Type.

(** The current state has been allocated. *)
Definition wf_machine (m : StateMachine ContextT) : Prop :=
  forall o, m_state m = Some o -> addr o < next_addr m.

(** What any run of the code does to the machine: the log grows at its
    end, the allocator moves on, and the current state is the one it was
    or an object allocated since. *)
Definition evolves (m m' : StateMachine ContextT) : Prop :=
  (exists l, log m' = log m ++ l)
  /\ next_addr m <= next_addr m'
  /\ (wf_machine m -> wf_machine m')
  /\ (m_state m' = m_state m
      \/ exists o, m_state m' = Some o /\ next_addr m <= addr o).

(** An [entry] or [exit] body that does not call [setTimeout]. *)
Fixpoint no_arming (h : Hook ContextT) : Prop :=
  match h with
  | HRet _ => True
  | HSetTimeout _ _ => False
  | HClearTimeout k => no_arming k
  | HGetCtx k => forall c, no_arming (k c)
  | HPutCtx _ k => no_arming k
  end.

End Invariants.

(** ** The machine of scenarios S5 and S6 *)

(** States [Top], below it [A] and [B], below these [A1] and [B1].  The
    [init] of [Top] selects [A], that of [A] selects [A1], that of [B]
    selects [B1]; [A1] arms a timeout on entry and, when it expires, goes
    to [B]. *)
Module Demo.

Local Open Scope string_scope.

Definition Top : StateClass := TopState "Top".
Definition A : StateClass := SubState Top "A".
Definition A1 : StateClass := SubState A "A1".
Definition B : StateClass := SubState Top "B".
Definition B1 : StateClass := SubState B "B1".

Definition init (T : StateClass) : Code unit :=
  if typeid_eqb T Top then SetState A (Ret _)
  else if typeid_eqb T A then SetState A1 (Ret _)
  else if typeid_eqb T B then SetState B1 (Ret _)
  else Ret _.

Definition entry (T : StateClass) : Hook unit :=
  if typeid_eqb T A1 then HSetTimeout 1000 (HRet _) else HRet _.

Definition exit (T : StateClass) : Hook unit := HRet _.

Definition timeoutEvent (T : StateClass) : option (Code unit) :=
  if typeid_eqb T A1 then Some (SetState B (Ret _)) else None.

(** The machine as constructed, and after [start()]: in [A1], with the
    timeout armed. *)
Definition constructed : StateMachine unit := StateMachine_ctor tt.

Definition a1 : StateObj := mkObj 2 A1.

Definition started : StateMachine unit :=
  mkSM (Some a1) tt (mkTimer 1000 true) 3
    [EvNew (mkObj 0 Top); EvInit (mkObj 0 Top);
     EvNew (mkObj 1 A); EvInit (mkObj 1 A);
     EvNew a1; EvInit a1; EvInstall a1;
     EvEntry a1 Top; EvEntry a1 A; EvEntry a1 A1;
     EvDelete (mkObj 1 A); EvDelete (mkObj 0 Top)].

(** [started] after [new B1] and the [init] of that object, which does
    nothing. *)
Definition b1 : StateObj := mkObj 3 B1.

Definition started_init_B1 : StateMachine unit :=
  mkSM (Some a1) tt (mkTimer 1000 true) 4
    (log started ++ [EvNew b1; EvInit b1]).

(** [started] after [new B] and the [init] of that object, which has
    selected [B1]: the nested transition has left [A1] and [A] and entered
    [B] and [B1]. *)
Definition b1' : StateObj := mkObj 4 B1.

Definition started_init_B : StateMachine unit :=
  mkSM (Some b1') tt (mkTimer 1000 false) 5
    (log started
     ++ [EvNew (mkObj 3 B); EvInit (mkObj 3 B);
         EvNew b1'; EvInit b1';
         EvExit a1 A1; EvExit a1 A;
         EvInstall b1';
         EvEntry b1' B; EvEntry b1' B1;
         EvDelete a1]).

End Demo.

End HFSM.

(* ====================================================================== *)
(** * The audio splitter's back-pressure algorithm *)
(* ====================================================================== *)

Module Splitter.

(** The signals a splitter sends to its upstream source. *)
Inductive Upstream : Type :=
| resume_output
| all_samples_flushed.

Definition is_resume (u : Upstream) : bool :=
  match u with
  | resume_output => true
  | all_samples_flushed => false
  end.

(** How a pass finds the sinks: [accept sink offered] is the number of
    samples the sink takes when [offered] samples are presented to it. *)
Definition Sinks : Type := nat -> nat -> nat.

Section WithSamples.

Variable Sample : Type.

(** Modelled from the spec: the branch record of [AudioSplitter]
    ([AsyncAudioSplitter.cpp] is not part of the sources, only the class
    declaration is): a reference to the sink, the [enabled] flag and the
    write cursor into the shared buffer. *)
Record Branch : Type := mkBranch {
  sink : nat;
  enabled : bool;
  cursor : nat
}.

(** Modelled from the spec: the splitter's state as far as the
    back-pressure algorithm reads and writes it (the declaration's
    [branches], [buf]/[buf_len] and [input_stopped]), and the signals it
    has sent upstream. *)
Record AudioSplitter : Type := mkSplitter {
  branches : list Branch;
  buf : list Sample;
  input_stopped : bool;
  sent : list Upstream
}.

Definition buf_len (s : AudioSplitter) : nat := List.length (buf s).

(** Modelled from the spec: "for each enabled branch whose cursor <
    buf_len, invoke sink.write_samples(buf[cursor:]) and advance the cursor
    by the return value"; a sink accepts at most what it is offered. *)
Definition write_branch (accept : Sinks) (len : nat) (b : Branch) : Branch :=
  if enabled b && (cursor b <? len) then
    let offered := len - cursor b in
    mkBranch (sink b) (enabled b)
      (cursor b + Nat.min (accept (sink b) offered) offered)
  else b.

Definition write_pass (accept : Sinks) (s : AudioSplitter) : AudioSplitter :=
  mkSplitter (map (write_branch accept (buf_len s)) (branches s))
    (buf s) (input_stopped s) (sent s).

(** Modelled from the spec: "min_cursor = min(branch.cursor for branch in
    enabled_branches)"; with no enabled branch nothing holds the buffer
    back. *)
Definition min_cursor (s : AudioSplitter) : nat :=
  fold_right (fun b acc => if enabled b then Nat.min (cursor b) acc else acc)
    (buf_len s) (branches s).

(** Every enabled branch's cursor equals [buf_len]. *)
Definition drained (s : AudioSplitter) : bool :=
  forallb (fun b => negb (enabled b) || (cursor b =? buf_len s))
    (branches s).

(** Modelled from the spec: "If any branch short-wrote, set input_stopped =
    true [...].  When all cursors reach buf_len, compact: buf_len = 0 for
    all branches, clear input_stopped, and (if previously stopped) call
    resume_output on upstream exactly once." *)
Definition settle (s : AudioSplitter) : AudioSplitter :=
  if drained s then
    mkSplitter (map (fun b => mkBranch (sink b) (enabled b) 0) (branches s))
      [] false
      (if input_stopped s then sent s ++ [resume_output] else sent s)
  else
    mkSplitter (branches s) (buf s) true (sent s).

(** Modelled from the spec: [write_from_buffer]. *)
Definition write_from_buffer (accept : Sinks) (s : AudioSplitter)
  : AudioSplitter :=
  settle (write_pass accept s).

(** Modelled from the spec: [write_samples(samples, len)]: "append to
    buffer; call write_from_buffer; return the number of samples the
    splitter was able to absorb from the caller", which are the samples of
    the caller "up to the new min_cursor".  [absorbed_state] is the state
    in which [min_cursor] is read, before compaction. *)
Definition append_samples (samples : list Sample) (s : AudioSplitter)
  : AudioSplitter :=
  mkSplitter (branches s) (buf s ++ samples) (input_stopped s) (sent s).

Definition absorbed_state (accept : Sinks) (samples : list Sample)
    (s : AudioSplitter) : AudioSplitter :=
  write_pass accept (append_samples samples s).

Definition write_samples (accept : Sinks) (samples : list Sample)
    (s : AudioSplitter) : nat * AudioSplitter :=
  let s1 := absorbed_state accept samples s in
  (min_cursor s1 - buf_len s, settle s1).

(** Modelled from the spec: a branch's [resume_output]: "re-enter
    write_from_buffer for that branch only; do not wake upstream until all
    cursors catch up".  [resume_pass] is the pass over that branch. *)
Definition resume_pass (accept : Sinks) (snk : nat) (s : AudioSplitter)
  : AudioSplitter :=
  mkSplitter
    (map (fun b => if Nat.eqb (sink b) snk
                   then write_branch accept (buf_len s) b else b)
       (branches s))
    (buf s) (input_stopped s) (sent s).

Definition branch_resume_output (accept : Sinks) (snk : nat)
    (s : AudioSplitter) : AudioSplitter :=
  settle (resume_pass accept snk s).

(** What happens to a splitter: its upstream writes and its branches'
    resumptions, each with the sinks' answers during it. *)
Inductive Op : Type :=
| Write (samples : list Sample) (accept : Sinks)
| Resume (snk : nat) (accept : Sinks).

Definition step (op : Op) (s : AudioSplitter) : AudioSplitter :=
  match op with
  | Write samples accept => snd (write_samples accept samples s)
  | Resume snk accept => branch_resume_output accept snk s
  end.

(** The splitter when the sinks have answered, before it settles. *)
Definition answered (op : Op) (s : AudioSplitter) : AudioSplitter :=
  match op with
  | Write samples accept => absorbed_state accept samples s
  | Resume snk accept => resume_pass accept snk s
  end.

Fixpoint run (ops : list Op) (s : AudioSplitter) : AudioSplitter :=
  match ops with
  | [] => s
  | op :: ops' => run ops' (step op s)
  end.

(** The number of [resume_output] signals sent so far. *)
Definition resumes (s : AudioSplitter) : nat :=
  List.length (filter is_resume (sent s)).

(** The number of steps of a run that take the splitter from the
    input-stopped condition to the drained one. *)
Fixpoint drain_transitions (ops : list Op) (s : AudioSplitter) : nat :=
  match ops with
  | [] => 0
  | op :: ops' =>
      (if input_stopped s && negb (input_stopped (step op s)) then 1 else 0)
      + drain_transitions ops' (step op s)
  end.

(** No branch's cursor exceeds [buf_len]. *)
Definition cursors_ok (s : AudioSplitter) : Prop :=
  Forall (fun b => cursor b <= buf_len s) (branches s).

End WithSamples.

Arguments Resume {Sample} snk accept.

End Splitter.

(* ====================================================================== *)
(** * Properties of the tone detector *)
(* ====================================================================== *)

(* ====================================================================== *)
(** * Streams of buffers for the tone detector *)
(* ====================================================================== *)

Module ToneStream.

Import Tone.

Section Stream.

Context {F : Type} {FL : Floating F}.

(** Successive calls of [processSamples], one per buffer: the detector
    after the last call and the signals emitted, in order. *)
Fixpoint feed (d : ToneDetector F) (chunks : list (list Z))
  : ToneDetector F * list (Signal F) :=
  match chunks with
  | [] => (d, [])
  | buf :: rest =>
      let '(d1, s1) := processSamples d buf in
      let '(d2, s2) := feed d1 rest in
      (d2, s1 ++ s2)
  end.

(** A block result that is a number below the threshold: the first test of
    [processSamples] fails and the second succeeds. *)
Definition below_threshold (r : F) : Prop :=
  fge r THRESHOLD = false /\ flt r THRESHOLD = true.

End Stream.

(** A 1000 Hz detector over binary64 at a block start, just activated. *)
Definition d1000_active (n : Z) : ToneDetector float :=
  mkToneDetector 1000 n coeff_1000Hz 0%float 0%float 0%float 0%float
    0 3 0%float 1000.

End ToneStream.

(* ====================================================================== *)
(** * The life of a state machine *)
(* ====================================================================== *)

Module HFSMLife.

Import HFSM.



(** The object at [o]'s address has been deleted. *)
Definition was_deleted (o : StateObj) (l : list Event) : bool :=
  existsb (fun e => match e with
                    | EvDelete o' => Nat.eqb (addr o') (addr o)
                    | _ => false
                    end) l.


Section Life.

Variable ContextT : Type.
Variable init : StateClass -> Code ContextT.
Variable entry : StateClass -> Hook ContextT.
Variable exit : StateClass -> Hook ContextT.
Variable timeoutEvent : StateClass -> option (Code ContextT).


(** Running the body of an event function called on the state object
    [this].  Every operation of a body goes through [this] ([m_sm] in
    [setState], [setTimeout] and [clearTimeout], [m_sm] again in [ctx]),
    and a transition made by the body deletes [this]: a further operation
    of the body is then undefined.  (The body of an [init] runs on the
    candidate, which is deleted only after [init] has returned.) *)
Fixpoint exec_on (this : StateObj)
    (set_state : StateClass -> StateMachine ContextT
                 -> Result (StateMachine ContextT))
    (c : Code ContextT) (m : StateMachine ContextT)
  : Result (StateMachine ContextT) :=
  match c with
  | Ret _ => Done m
  | SetState NewStateT k =>
      if was_deleted this (log m) then Fault
      else match set_state NewStateT m with
           | Done m' => exec_on this set_state k m'
           | Diverge => Diverge
           | Fault => Fault
           end
  | SetTimeout ms k =>
      if was_deleted this (log m) then Fault
      else exec_on this set_state k (setTimeout ms m)
  | ClearTimeout k =>
      if was_deleted this (log m) then Fault
      else exec_on this set_state k (clearTimeout m)
  | GetCtx k =>
      if was_deleted this (log m) then Fault
      else exec_on this set_state (k (m_ctx m)) m
  | PutCtx c' k =>
      if was_deleted this (log m) then Fault
      else exec_on this set_state k (set_m_ctx c' m)
  end.

(** [sm.state().event()]: an event function, virtual in the top state,
    called on the active state; [event T] is the body that runs when the
    active state has class [T]. *)
Definition dispatch (fuel : nat) (event : StateClass -> Code ContextT)
    (m : StateMachine ContextT) : Result (StateMachine ContextT) :=
  match m_state m with
  | None => Fault
  | Some o =>
      exec_on o (setState init entry exit fuel) (event (typeId o)) m
  end.

(** The handler connected to [m_timer.expired], the body of
    [timeoutEvent] running on the active state. *)
Definition expire (fuel : nat) (m : StateMachine ContextT)
  : Result (StateMachine ContextT) :=
  if is_enabled (m_timer m) then
    match m_state m with
    | None => Fault
    | Some o =>
        match timeoutEvent (typeId o) with
        | None => Fault
        | Some body =>
            match exec_on o (setState init entry exit fuel) body
                    (emit (EvTimeout o) m) with
            | Done m' => Done (clearTimeout m')
            | Diverge => Diverge
            | Fault => Fault
            end
        end
    end
  else Done m.

(** What is done with a started machine: an event is dispatched, the timer
    expires, or [setState<T>()] is called from outside. *)
Inductive Op : Type :=
| Dispatch (event : StateClass -> Code ContextT)
| Expire
| Transition (T : StateClass).

Definition step (fuel : nat) (op : Op) (m : StateMachine ContextT)
  : Result (StateMachine ContextT) :=
  match op with
  | Dispatch event => dispatch fuel event m
  | Expire => expire fuel m
  | Transition T => setState init entry exit fuel T m
  end.

Fixpoint run (fuel : nat) (ops : list Op) (m : StateMachine ContextT)
  : Result (StateMachine ContextT) :=
  match ops with
  | [] => Done m
  | op :: ops' =>
      match step fuel op m with
      | Done m' => run fuel ops' m'
      | Diverge => Diverge
      | Fault => Fault
      end
  end.



(** An [entry] or [exit] body that leaves the timer alone. *)
Fixpoint timer_neutral (h : Hook ContextT) : Prop :=
  match h with
  | HRet _ => True
  | HSetTimeout _ _ => False
  | HClearTimeout _ => False
  | HGetCtx k => forall c, timer_neutral (k c)
  | HPutCtx _ k => timer_neutral k
  end.

End Life.

Arguments Expire {ContextT}.
Arguments Transition {ContextT} T.

(** ** Machines of the demonstration hierarchy *)



(** A machine in state [A] with a timeout pending, and that machine after
    [new A1] and the [init] of that object, which does nothing. *)
Definition in_A : StateMachine unit :=
  mkSM (Some (mkObj 0 Demo.A)) tt (mkTimer 500 true) 1 [EvNew (mkObj 0 Demo.A)].

Definition in_A_init_A1 : StateMachine unit :=
  mkSM (Some (mkObj 0 Demo.A)) tt (mkTimer 500 true) 2
    [EvNew (mkObj 0 Demo.A); EvNew (mkObj 1 Demo.A1); EvInit (mkObj 1 Demo.A1)].

(** The constructed machine of [Demo] after [new B1] and the [init] of
    that object, which does nothing. *)
Definition constructed_init_B1 : StateMachine unit :=
  mkSM None tt Timer_init 1 [EvNew (mkObj 0 Demo.B1); EvInit (mkObj 0 Demo.B1)].

End HFSMLife.

(* ====================================================================== *)
(** * The state machine over an allocator that may reuse addresses *)
(* ====================================================================== *)

Module HFSMReuse.

Import HFSM.

(** The addresses deleted and not allocated again since, the one freed
    last first. *)
Fixpoint freed (l : list Event) (acc : list nat) : list nat :=
  match l with
  | [] => acc
  | EvNew o :: l' => freed l' (remove Nat.eq_dec (addr o) acc)
  | EvDelete o :: l' => freed l' (addr o :: acc)
  | _ :: l' => freed l' acc
  end.

(** What [new] returns, given the free addresses and the first address
    never used so far. *)
Definition Allocator : Type := list nat -> nat -> nat.

(** An allocator that never gives an address twice, and one that gives
    the block freed last, as a free list does for blocks of one size. *)
Definition never_reuse : Allocator := fun _ unused => unused.

Definition reuse_last_freed : Allocator := fun free unused => hd unused free.

Section Machine.

Variable ContextT : Type.
Variable init : StateClass -> Code ContextT.
Variable entry : StateClass -> Hook ContextT.
Variable exit : StateClass -> Hook ContextT.
Variable alloc : Allocator.

(** [new NewStateT]. *)
Definition new_state (NewStateT : StateClass) (m : StateMachine ContextT)
  : StateObj * StateMachine ContextT :=
  let a := alloc (freed (log m) []) (next_addr m) in
  let o := mkObj a NewStateT in
  (o, emit (EvNew o)
        (mkSM (m_state m) (m_ctx m) (m_timer m)
           (Nat.max (next_addr m) (S a)) (log m))).

(** The part of [setState] after [initHandler] has returned.  [old_state]
    is the pointer read before [initHandler]; the test compares addresses.
    Where the test lets the transition go on, [old_state] and [m_state] are
    one address, and what is reached through [old_state] is the object at
    that address now, the current state. *)
Definition finish_transition (old_state : option StateObj)
    (state : StateObj) (m : StateMachine ContextT) : StateMachine ContextT :=
  if negb (ptr_eqb old_state (m_state m)) then
    delete (Some state) m
  else
    let old := m_state m in
    let m1 := match old with
              | Some o => exitHandler exit (typeId o) o (Some state) m
              | None => m
              end in
    let m2 := emit (EvInstall state) (set_m_state (Some state) m1) in
    let m3 := entryHandler entry (typeId state) state old m2 in
    delete old m3.

(** [template <class NewStateT> void setState(NewStateT* state=new NewStateT)]. *)
Fixpoint setState (fuel : nat) (NewStateT : StateClass)
    (m : StateMachine ContextT) : Result (StateMachine ContextT) :=
  match fuel with
  | O => Diverge
  | S fuel' =>
      let '(state, m0) := new_state NewStateT m in
      let old_state := m_state m0 in
      if match old_state with
         | Some o => typeid_eqb NewStateT (typeId o)
         | None => false
         end
      then Done (delete (Some state) m0)
      else
        match exec (setState fuel') (init NewStateT)
                (emit (EvInit state) m0) with
        | Done m1 => Done (finish_transition old_state state m1)
        | Diverge => Diverge
        | Fault => Fault
        end
  end.

(** [StateBase<ParentT,T>::initHandler] on the candidate [state]. *)
Definition initHandler (fuel : nat) (state : StateObj)
    (m : StateMachine ContextT) : Result (StateMachine ContextT) :=
  exec (setState fuel) (init (typeId state)) (emit (EvInit state) m).

End Machine.

(** ** An [init] that redirects twice *)

(** The hierarchy of [Demo] with another [init] for [B]: it calls
    [setState<A1>()] and then [setState<B1>()]; no other [init] does
    anything, and no [entry] or [exit] does. *)
Definition init_twice (T : StateClass) : Code unit :=
  if typeid_eqb T Demo.B
  then SetState Demo.A1 (SetState Demo.B1 (Ret _))
  else Ret _.

(** A machine whose current state is the object of class [A] at address
    0, the only object allocated so far. *)
Definition in_A : StateMachine unit :=
  mkSM (Some (mkObj 0 Demo.A)) tt Timer_init 1 [EvNew (mkObj 0 Demo.A)].

(** [in_A] when the [init] of the candidate of class [B], at address 1,
    has returned, under [reuse_last_freed]: the first nested transition has
    installed an [A1] at address 2 and deleted the [A] at address 0, the
    second has installed a [B1] at address 0 and deleted the [A1]. *)
Definition in_A_after_init : StateMachine unit :=
  mkSM (Some (mkObj 0 Demo.B1)) tt Timer_init 3
    [EvNew (mkObj 0 Demo.A);
     EvNew (mkObj 1 Demo.B); EvInit (mkObj 1 Demo.B);
     EvNew (mkObj 2 Demo.A1); EvInit (mkObj 2 Demo.A1);
     EvInstall (mkObj 2 Demo.A1); EvEntry (mkObj 2 Demo.A1) Demo.A1;
     EvDelete (mkObj 0 Demo.A);
     EvNew (mkObj 0 Demo.B1); EvInit (mkObj 0 Demo.B1);
     EvExit (mkObj 2 Demo.A1) Demo.A1; EvExit (mkObj 2 Demo.A1) Demo.A;
     EvInstall (mkObj 0 Demo.B1);
     EvEntry (mkObj 0 Demo.B1) Demo.B; EvEntry (mkObj 0 Demo.B1) Demo.B1;
     EvDelete (mkObj 2 Demo.A1)].

End HFSMReuse.

Unset Implicit Arguments.

Module ToneFacts.

Import Tone.
Local Open Scope Z_scope.

Section Generic.

Context {F : Type} {FL : Floating F}.

Implicit Types d : ToneDetector F.

(** ** The sample path *)

Lemma usample_short (x : Z) :
  is_short x -> usample x = Z.shiftr (x + 0x8000) 8 /\ 0 <= usample x <= 255.
Proof.
  unfold is_short, usample. intros Hx.
  rewrite Z.shiftr_div_pow2 by lia.
  change (2 ^ 8) with 256.
  assert (0 <= (x + 32768) / 256 < 256) as Hr.
  { split.
    - apply Z.div_pos; lia.
    - apply Z.div_lt_upper_bound; lia. }
  rewrite Z.mod_small by exact Hr. lia.
Qed.

Lemma usample_byte (x : Z) : 0 <= usample x <= 255.
Proof.
  unfold usample.
  pose proof (Z.mod_pos_bound (Z.shiftr (x + 32768) 8) 256 ltac:(lia)). lia.
Qed.

(** [processSamples] over a concatenation is [processSamples] twice. *)
Lemma processSamples_app (a b : list Z) :
  forall d,
    processSamples d (a ++ b) =
    (fst (processSamples (fst (processSamples d a)) b),
     snd (processSamples d a)
       ++ snd (processSamples (fst (processSamples d a)) b)).
Proof.
  induction a as [|x a IH]; intros d; simpl.
  - destruct (processSamples d b); reflexivity.
  - destruct (sample_step d x) as [d1 s1].
    rewrite IH.
    destruct (processSamples d1 a) as [d2 s2]; simpl.
    destruct (processSamples d2 b) as [d3 s3]; simpl.
    now rewrite app_assoc.
Qed.

(** The recurrence touches [Q1] and [Q2] only. *)
Lemma fold_processSample_fields (block : list Z) :
  forall d,
    let d' := fold_left processSample block d in
    tone d' = tone d /\ N d' = N d /\ coeff d' = coeff d
    /\ sine d' = sine d /\ cosine d' = cosine d
    /\ block_pos d' = block_pos d /\ is_activated d' = is_activated d
    /\ result d' = result d /\ tone_fq d' = tone_fq d.
Proof.
  induction block as [|x block IH]; intros d; simpl.
  - repeat split.
  - specialize (IH (processSample d x)). simpl in IH. exact IH.
Qed.

(** The recurrence depends on [coeff], [Q1] and [Q2] only. *)
Lemma fold_processSample_Q (block : list Z) :
  forall d e,
    coeff d = coeff e -> Q1 d = Q1 e -> Q2 d = Q2 e ->
    Q1 (fold_left processSample block d) = Q1 (fold_left processSample block e)
    /\ Q2 (fold_left processSample block d)
       = Q2 (fold_left processSample block e).
Proof.
  induction block as [|x block IH]; intros d e Hc H1 H2; simpl.
  - split; assumption.
  - apply IH; simpl; congruence.
Qed.

Lemma block_result_of_start d (block : list Z) :
  Q1 d = of_int 0 -> Q2 d = of_int 0 ->
  getMagnitudeSquared (fold_left processSample block d)
  = block_result (coeff d) block.
Proof.
  intros H1 H2. unfold block_result, getMagnitudeSquared.
  destruct (fold_processSample_Q block d (fresh (coeff d) 0)
              eq_refl H1 H2) as [E1 E2].
  pose proof (fold_processSample_fields block d) as Hd.
  pose proof (fold_processSample_fields block (fresh (coeff d) 0)) as He.
  simpl in Hd, He.
  destruct Hd as (_ & _ & Hd & _). destruct He as (_ & _ & He & _).
  rewrite E1, E2, Hd, He. reflexivity.
Qed.

Lemma getMagnitudeSquared_ext d e :
  coeff d = coeff e -> Q1 d = Q1 e -> Q2 d = Q2 e ->
  getMagnitudeSquared d = getMagnitudeSquared e.
Proof. unfold getMagnitudeSquared. intros -> -> ->. reflexivity. Qed.

(** The two ways through the body of the loop. *)
Lemma sample_step_inner d (x : Z) :
  block_pos d + 1 < N d ->
  sample_step d x =
  (mkToneDetector (tone d) (N d) (coeff d) (sine d) (cosine d)
     (Q1 (processSample d x)) (Q1 d) (block_pos d + 1) (is_activated d)
     (result d) (tone_fq d),
   []).
Proof.
  intros H. unfold sample_step. cbn [processSample block_pos N].
  replace (block_pos d + 1 >=? N d) with false
    by (symmetry; rewrite Z.geb_leb; apply Z.leb_gt; lia).
  reflexivity.
Qed.

Lemma sample_step_boundary d (x : Z) :
  N d <= block_pos d + 1 ->
  let r := getMagnitudeSquared (processSample d x) in
  sample_step d x =
  (after_block d r, valueChanged r :: snd (threshold_test r (is_activated d))).
Proof.
  intros H r. unfold sample_step. cbn [processSample block_pos N].
  replace (block_pos d + 1 >=? N d) with true
    by (symmetry; apply Z.geb_le; lia).
  fold (processSample d x). fold r. unfold after_block.
  cbn [is_activated processSample].
  destruct (threshold_test r (is_activated d)) as [ia sigs]; reflexivity.
Qed.

(** Running the samples that complete the current block. *)
Lemma processSamples_to_boundary (block : list Z) :
  forall d,
    block <> [] ->
    block_pos d + Z.of_nat (length block) = N d ->
    let r := getMagnitudeSquared (fold_left processSample block d) in
    processSamples d block =
    (after_block d r,
     valueChanged r :: snd (threshold_test r (is_activated d))).
Proof.
  induction block as [|x block IH]; intros d Hne Hlen; [congruence|].
  destruct block as [|y block].
  - (* the last sample of the block *)
    cbn [processSamples fold_left]. cbn [length] in Hlen.
    rewrite sample_step_boundary by lia.
    cbv zeta. rewrite app_nil_r. reflexivity.
  - (* an inner sample *)
    cbv zeta.
    change (processSamples d (x :: y :: block))
      with (let '(d1, s1) := sample_step d x in
            let '(d2, s2) := processSamples d1 (y :: block) in
            (d2, s1 ++ s2)).
    change (length (x :: y :: block)) with (S (length (y :: block))) in Hlen.
    rewrite Nat2Z.inj_succ in Hlen.
    assert (0 < Z.of_nat (length (y :: block))) by (cbn [length]; lia).
    rewrite sample_step_inner by lia.
    rewrite IH; [| discriminate | cbn [block_pos N]; lia].
    cbv zeta. cbn [app].
    match goal with
    | |- (after_block ?d1 ?r1, valueChanged ?r1 :: snd (threshold_test ?r1 _))
         = (after_block _ ?r2, _) =>
        assert (r1 = r2) as ->
    end.
    { change (fold_left processSample (x :: y :: block) d)
        with (fold_left processSample (y :: block) (processSample d x)).
      apply getMagnitudeSquared_ext.
      - pose proof (fold_processSample_fields (y :: block)) as Hf.
        cbv zeta in Hf.
        rewrite (proj1 (proj2 (proj2 (Hf _)))).
        rewrite (proj1 (proj2 (proj2 (Hf (processSample d x))))).
        reflexivity.
      - apply fold_processSample_Q; reflexivity.
      - apply fold_processSample_Q; reflexivity. }
    reflexivity.
Qed.

(** One whole block, from a block start. *)
Lemma processSamples_block d (block : list Z) :
  1 <= N d -> at_block_start d -> Z.of_nat (length block) = N d ->
  let r := block_result (coeff d) block in
  processSamples d block =
  (after_block d r, valueChanged r :: snd (threshold_test r (is_activated d))).
Proof.
  intros HN (Hp & H1 & H2) Hlen r.
  rewrite processSamples_to_boundary.
  - cbv zeta. rewrite (block_result_of_start d block H1 H2). reflexivity.
  - destruct block; [simpl in Hlen; lia | discriminate].
  - lia.
Qed.

Lemma after_block_start d (r : F) : at_block_start (after_block d r).
Proof. repeat split. Qed.

(** A block shorter than what is left of the current one emits nothing. *)
Lemma processSamples_partial (tail : list Z) :
  forall d,
    block_pos d + Z.of_nat (length tail) < N d ->
    let d' := fst (processSamples d tail) in
    snd (processSamples d tail) = []
    /\ block_pos d' = block_pos d + Z.of_nat (length tail)
    /\ N d' = N d /\ coeff d' = coeff d
    /\ is_activated d' = is_activated d
    /\ Q1 d' = Q1 (fold_left processSample tail d)
    /\ Q2 d' = Q2 (fold_left processSample tail d).
Proof.
  induction tail as [|x tail IH]; intros d Hlen.
  - cbn. repeat split; lia.
  - change (length (x :: tail)) with (S (length tail)) in Hlen.
    rewrite Nat2Z.inj_succ in Hlen.
    cbn [processSamples]. rewrite sample_step_inner by lia.
    match goal with
    | |- context [processSamples ?e tail] => specialize (IH e); set (d1 := e) in *
    end.
    destruct (processSamples d1 tail) as [d2 s2] eqn:E.
    cbv zeta in *. cbn [fst snd app] in *.
    destruct IH as (Hs & Hp & HN & Hc & Hi & Hq1 & Hq2).
    { subst d1. cbn [block_pos N]. lia. }
    subst d1. cbn [block_pos N coeff is_activated] in *.
    change (length (x :: tail)) with (S (length tail)).
    rewrite Nat2Z.inj_succ.
    repeat split; try assumption; try lia.
    + rewrite Hq1. cbn [fold_left].
      apply fold_processSample_Q; reflexivity.
    + rewrite Hq2. cbn [fold_left].
      apply fold_processSample_Q; reflexivity.
Qed.

Lemma values_app (a b : list (Signal F)) :
  values (a ++ b) = values a ++ values b.
Proof.
  induction a as [|[r|on] a IH]; simpl; [reflexivity | f_equal; exact IH | exact IH].
Qed.

Lemma activations_app (a b : list (Signal F)) :
  activations (a ++ b) = activations a ++ activations b.
Proof.
  induction a as [|[r|on] a IH]; simpl; [reflexivity | exact IH | f_equal; exact IH].
Qed.

Lemma values_threshold_test (r : F) (ia : Z) :
  values (snd (threshold_test r ia)) = [].
Proof.
  unfold threshold_test.
  destruct (fge r THRESHOLD); [destruct (ia =? 0); reflexivity|].
  destruct (negb (ia =? 0) && flt r THRESHOLD); [|reflexivity].
  cbv zeta. destruct (ia - 1 =? 0); reflexivity.
Qed.

(** A run of whole blocks, from a block start. *)
Lemma processSamples_blocks (blocks : list (list Z)) :
  forall d,
    1 <= N d -> at_block_start d ->
    Forall (fun b => Z.of_nat (length b) = N d) blocks ->
    let d' := fst (processSamples d (concat blocks)) in
    values (snd (processSamples d (concat blocks)))
    = map (block_result (coeff d)) blocks
    /\ at_block_start d' /\ N d' = N d /\ coeff d' = coeff d.
Proof.
  induction blocks as [|b blocks IH]; intros d HN Hs Hall.
  - cbn. repeat split; apply Hs.
  - inversion Hall as [|? ? Hb Hrest]; subst.
    cbn [concat]. rewrite processSamples_app.
    rewrite (processSamples_block d b HN Hs Hb).
    cbv zeta. cbn [fst snd].
    set (r := block_result (coeff d) b).
    specialize (IH (after_block d r) HN (after_block_start d r) Hrest).
    cbv zeta in IH. destruct IH as (Hv & Hst & HN' & Hc').
    repeat split; try apply Hst; try assumption.
    rewrite values_app. cbn [values]. rewrite values_threshold_test.
    cbn [app map]. rewrite Hv. reflexivity.
Qed.

(** C8.  Every input sample [x], a 16-bit signed value, enters the
    recurrence as the code [u = ((int)x + 0x8000) >> 8], which lies in
    [0, 255] (the narrowing to [unsigned char] loses nothing); the update
    of one sample is [Q0 = coeff*Q1 - Q2 + u], then [Q2 <- Q1] and
    [Q1 <- Q0], the other members being left alone. *)
Theorem C8_sample_code_and_recurrence d (x : Z) :
  is_short x ->
  usample x = Z.shiftr (x + 0x8000) 8
  /\ 0 <= usample x <= 255
  /\ Q1 (processSample d x)
     = fadd (fsub (fmul (coeff d) (Q1 d)) (Q2 d)) (of_int (usample x))
  /\ Q2 (processSample d x) = Q1 d
  /\ coeff (processSample d x) = coeff d
  /\ N (processSample d x) = N d
  /\ block_pos (processSample d x) = block_pos d
  /\ is_activated (processSample d x) = is_activated d.
Proof.
  intros Hx. destruct (usample_short x Hx) as [Hu Hr].
  repeat split; try assumption; apply Hr.
Qed.

(** C7.  From a block start, and whatever [is_activated] is, the samples of
    any number of whole blocks of [N] samples, followed by fewer than [N]
    further samples, make the detector emit exactly one [valueChanged] per
    whole block, in order; the value of a block is
    [Q1*Q1 + Q2*Q2 - Q1*Q2*coeff] on the state the recurrence reaches over
    that block's samples alone, started from [Q1 = Q2 = 0]; and after the
    whole blocks [Q1], [Q2] and [block_pos] are 0 again. *)
Theorem C7_value_changed_once_per_block d (blocks : list (list Z))
    (tail : list Z) :
  1 <= N d -> at_block_start d ->
  Forall (fun b => Z.of_nat (length b) = N d) blocks ->
  Z.of_nat (length tail) < N d ->
  values (snd (processSamples d (concat blocks ++ tail)))
  = map (block_result (coeff d)) blocks
  /\ length (values (snd (processSamples d (concat blocks ++ tail))))
     = length blocks
  /\ (forall b,
        let e := fold_left processSample b (fresh (coeff d) 0) in
        block_result (coeff d) b
        = fsub (fadd (fmul (Q1 e) (Q1 e)) (fmul (Q2 e) (Q2 e)))
               (fmul (fmul (Q1 e) (Q2 e)) (coeff d)))
  /\ at_block_start (fst (processSamples d (concat blocks))).
Proof.
  intros HN Hs Hall Htail.
  destruct (processSamples_blocks blocks d HN Hs Hall) as (Hv & Hst & HN' & Hc').
  assert (values (snd (processSamples d (concat blocks ++ tail)))
          = map (block_result (coeff d)) blocks) as Hvals.
  { rewrite processSamples_app. cbn [snd]. rewrite values_app, Hv.
    destruct (processSamples_partial tail
                (fst (processSamples d (concat blocks)))) as (Hnil & _).
    { destruct Hst as (Hp & _). rewrite Hp, HN'. lia. }
    rewrite Hnil. cbn [values]. apply app_nil_r. }
  repeat split; try apply Hst.
  - exact Hvals.
  - rewrite Hvals. apply length_map.
  - intros b e. unfold block_result, getMagnitudeSquared. fold e.
    pose proof (fold_processSample_fields b (fresh (coeff d) 0)) as Hf.
    cbv zeta in Hf. fold e in Hf.
    destruct Hf as (_ & _ & Hf & _). rewrite Hf. reflexivity.
Qed.

(** The constructor leaves the detector at a block start, inactive. *)
Lemma ToneDetector_ctor_start (sin cos : F -> F) (PI : F)
    (tone_hz base_N : Z) :
  let d := ToneDetector_ctor sin cos PI tone_hz base_N in
  at_block_start d /\ is_activated d = 0 /\ N d = base_N.
Proof. repeat split. Qed.

(** [block_pos] stays below [N] (below 1 when [N < 1]), so that its
    increment, done in [int], does not overflow. *)
Lemma block_pos_bounded (buf : list Z) :
  forall d,
    0 <= block_pos d < Z.max 1 (N d) ->
    let d' := fst (processSamples d buf) in
    0 <= block_pos d' < Z.max 1 (N d') /\ N d' = N d.
Proof.
  induction buf as [|x buf IH]; intros d Hd.
  - cbn. lia.
  - cbn [processSamples].
    destruct (Z_lt_le_dec (block_pos d + 1) (N d)) as [Hin | Hend].
    + rewrite sample_step_inner by exact Hin.
      match goal with
      | |- context [processSamples ?e buf] => specialize (IH e); set (d1 := e) in *
      end.
      destruct (processSamples d1 buf) as [d2 s2]. cbv zeta in *.
      cbn [fst] in *. subst d1. cbn [block_pos N] in IH. apply IH. lia.
    + rewrite sample_step_boundary by exact Hend. cbv zeta.
      match goal with
      | |- context [processSamples ?e buf] => specialize (IH e); set (d1 := e) in *
      end.
      destruct (processSamples d1 buf) as [d2 s2]. cbv zeta in *.
      cbn [fst] in *. subst d1. cbn [block_pos N after_block] in IH.
      apply IH. lia.
Qed.

(** ** Silence *)

Lemma values_repeat (r : F) (k : nat) :
  values (repeat (valueChanged r) k) = repeat r k.
Proof. induction k as [|k IH]; simpl; [reflexivity | now rewrite IH]. Qed.

Lemma activations_repeat (r : F) (k : nat) :
  activations (repeat (valueChanged r) k) = [].
Proof. induction k as [|k IH]; simpl; [reflexivity | exact IH]. Qed.

(** Blocks of equal samples, once the threshold test no longer changes
    [is_activated]. *)
Lemma processSamples_steady (x : Z) (k : nat) :
  forall d,
    1 <= N d -> at_block_start d ->
    let n := Z.to_nat (N d) in
    let r0 := block_result (coeff d) (repeat x n) in
    threshold_test r0 (is_activated d) = (is_activated d, []) ->
    snd (processSamples d (repeat x (k * n))) = repeat (valueChanged r0) k.
Proof.
  induction k as [|k IH]; intros d HN Hs n r0 Hsteady.
  - reflexivity.
  - change (S k * n)%nat with (n + k * n)%nat.
    rewrite repeat_app, processSamples_app.
    assert (Z.of_nat (length (repeat x n)) = N d) as Hlen
      by (rewrite repeat_length; unfold n; lia).
    rewrite (processSamples_block d (repeat x n) HN Hs Hlen).
    cbv zeta. fold r0. cbn [fst snd]. rewrite Hsteady. cbn [snd app repeat].
    f_equal.
    specialize (IH (after_block d r0) HN (after_block_start d r0)).
    cbv zeta in IH. cbn [N coeff is_activated after_block] in IH.
    fold n in IH. fold r0 in IH. rewrite Hsteady in IH. cbn [fst] in IH.
    apply IH. exact Hsteady.
Qed.

(** C2, amended.  A sample 0 enters the recurrence as the code 128, not as
    0.  So an all-zero input of [k] whole blocks, given to a detector as
    the constructor leaves it, emits exactly [k] [valueChanged], all with
    the same value [r0], the Goertzel sum of a block of [N] codes 128;
    [activated(true)] is emitted, once and after the first [valueChanged],
    exactly when [r0] reaches the threshold; [activated(false)] never
    is. *)
Theorem C2_silence_amended d (k : nat) :
  1 <= N d -> at_block_start d -> is_activated d = 0 -> (1 <= k)%nat ->
  let n := Z.to_nat (N d) in
  let r0 := block_result (coeff d) (repeat 0 n) in
  let sigs := snd (processSamples d (repeat 0 (k * n))) in
  usample 0 = 128
  /\ sigs = valueChanged r0
            :: (if fge r0 THRESHOLD then [activated true] else [])
            ++ repeat (valueChanged r0) (k - 1)
  /\ values sigs = repeat r0 k
  /\ activations sigs = (if fge r0 THRESHOLD then [true] else []).
Proof.
  intros HN Hs Hia Hk n r0 sigs.
  assert (sigs = valueChanged r0
            :: (if fge r0 THRESHOLD then [activated true] else [])
            ++ repeat (valueChanged r0) (k - 1)) as Hsigs.
  { unfold sigs. destruct k as [|k]; [lia|].
    change (S k * n)%nat with (n + k * n)%nat.
    rewrite repeat_app, processSamples_app.
    assert (Z.of_nat (length (repeat 0 n)) = N d) as Hlen
      by (rewrite repeat_length; unfold n; lia).
    rewrite (processSamples_block d (repeat 0 n) HN Hs Hlen).
    cbv zeta. fold r0. cbn [fst snd]. rewrite Hia.
    replace (S k - 1)%nat with k by lia.
    pose proof (processSamples_steady 0 k (after_block d r0) HN
                  (after_block_start d r0)) as Hrest.
    cbv zeta in Hrest. cbn [N coeff is_activated after_block] in Hrest.
    fold n in Hrest. fold r0 in Hrest. rewrite Hia in Hrest.
    unfold threshold_test in *.
    destruct (fge r0 THRESHOLD) eqn:Hge; cbn [fst snd Z.eqb negb andb app] in *.
    - rewrite Hrest by reflexivity. reflexivity.
    - rewrite Hrest by reflexivity. reflexivity. }
  repeat split.
  - exact Hsigs.
  - rewrite Hsigs. cbn [values]. rewrite values_app, values_repeat.
    destruct k as [|k]; [lia|].
    replace (S k - 1)%nat with k by lia.
    destruct (fge r0 THRESHOLD); reflexivity.
  - rewrite Hsigs. cbn [activations].
    rewrite activations_app, activations_repeat, app_nil_r.
    destruct (fge r0 THRESHOLD); reflexivity.
Qed.

(** ** Activation and release *)

(** A sample either stays inside its block or ends it with the threshold
    test. *)
Lemma sample_step_cases d (x : Z) :
  (snd (sample_step d x) = []
   /\ is_activated (fst (sample_step d x)) = is_activated d)
  \/ (exists r,
        snd (sample_step d x)
        = valueChanged r :: snd (threshold_test r (is_activated d))
        /\ is_activated (fst (sample_step d x))
           = fst (threshold_test r (is_activated d))).
Proof.
  destruct (Z_lt_le_dec (block_pos d + 1) (N d)) as [Hin | Hend].
  - left. rewrite sample_step_inner by exact Hin. split; reflexivity.
  - right. exists (getMagnitudeSquared (processSample d x)).
    rewrite sample_step_boundary by exact Hend. split; reflexivity.
Qed.

(** The four outcomes of the threshold test. *)
Lemma threshold_test_cases (r : F) (ia : Z) :
  (fge r THRESHOLD = true /\ ia = 0
   /\ threshold_test r ia = (3, [activated true]))
  \/ (fge r THRESHOLD = true /\ ia <> 0 /\ threshold_test r ia = (3, []))
  \/ (fge r THRESHOLD = false /\ ia = 1
      /\ threshold_test r ia = (0, [activated false]))
  \/ (fge r THRESHOLD = false /\ ia <> 0 /\ ia <> 1
      /\ flt r THRESHOLD = true /\ threshold_test r ia = (ia - 1, []))
  \/ (fge r THRESHOLD = false /\ threshold_test r ia = (ia, [])
      /\ (ia = 0 \/ flt r THRESHOLD = false)).
Proof.
  unfold threshold_test.
  destruct (fge r THRESHOLD) eqn:Hge.
  - destruct (Z.eqb_spec ia 0) as [-> | Hne]; [left | right; left]; auto.
  - right; right.
    destruct (Z.eqb_spec ia 0) as [-> | Hne]; cbn [negb andb].
    + right; right. auto.
    + destruct (flt r THRESHOLD) eqn:Hlt.
      * cbv zeta. destruct (Z.eqb_spec (ia - 1) 0) as [H1 | H1].
        -- left. assert (ia = 1) as -> by lia. auto.
        -- right; left. repeat split; auto. lia.
      * right; right. auto.
Qed.

(** Where an element of [t ++ s] lies. *)
Lemma split_occurrence {A : Type} (x : A) (t s : list A) :
  forall p q,
    t ++ s = p ++ x :: q ->
    (exists q', t = p ++ x :: q' /\ q = q' ++ s)
    \/ (exists p', p = t ++ p' /\ s = p' ++ x :: q).
Proof.
  induction t as [|y t IH]; intros p q H.
  - right. exists p. split; [reflexivity | exact H].
  - destruct p as [|z p].
    + left. cbn in H. injection H as -> <-. exists t. split; reflexivity.
    + cbn in H. injection H as -> H.
      destruct (IH p q H) as [(q' & -> & ->) | (p' & -> & ->)].
      * left. exists q'. split; reflexivity.
      * right. exists p'. split; reflexivity.
Qed.

(** A trace keeps [release_after_three] when what is appended holds no
    [activated(false)]. *)
Lemma release_after_three_app (t s : list (Signal F)) :
  release_after_three t ->
  ~ In (activated false) s ->
  release_after_three (t ++ s).
Proof.
  intros Ht Hs p q H.
  destruct (split_occurrence _ t s p q H) as [(q' & Ht' & _) | (p' & _ & Hs')].
  - exact (Ht p q' Ht').
  - exfalso. apply Hs. rewrite Hs'. apply in_elt.
Qed.

(** The invariant across the end of a block. *)
Lemma hysteresis_step (r : F) (ia : Z) (t : list (Signal F)) :
  hysteresis_inv ia t ->
  hysteresis_inv (fst (threshold_test r ia))
    (t ++ valueChanged r :: snd (threshold_test r ia)).
Proof.
  intros [Hrel Hia].
  destruct (threshold_test_cases r ia)
    as [(Hge & H0 & ->) | [(Hge & H0 & ->) | [(Hge & H1 & ->)
       | [(Hge & H0 & H1 & Hlt & ->) | (Hge & -> & Hor)]]]];
    cbn [fst snd].
  - (* activation *)
    split.
    + apply release_after_three_app; [exact Hrel|].
      intros [H | [H | []]]; discriminate.
    + right; left. split; [reflexivity|].
      apply in_or_app. right. right. left. reflexivity.
  - (* still active *)
    split.
    + apply release_after_three_app; [exact Hrel|].
      intros [H | []]; discriminate.
    + right; left. split; [reflexivity|].
      apply in_or_app. left.
      destruct Hia as [H | [(_ & H) | [(_ & p & a & -> & _ & H)
                     | (_ & p & a & b & -> & _ & _ & H)]]];
        [contradiction | exact H | |]; apply in_or_app; left; exact H.
  - (* release *)
    subst ia.
    destruct Hia as [H | [(H & _) | [(H & _) | (_ & p & a & b & -> & Ha & Hb & Hin)]]];
      try discriminate.
    split; [|left; reflexivity].
    intros p0 q0 H.
    destruct (split_occurrence _ _ _ p0 q0 H)
      as [(q' & Ht' & _) | (p' & Hp & Hs')].
    + exact (Hrel p0 q' Ht').
    + destruct p' as [|s1 [|s2 p']]; cbn in Hs'; try discriminate.
      * injection Hs' as <- <-.
        exists p, a, b, r. rewrite Hp, <- app_assoc.
        repeat split; auto.
      * injection Hs' as _ _ Hs'. destruct p'; discriminate.
  - (* one step nearer to the release *)
    assert (~ In (@activated F false) [valueChanged r]) as Hno
      by (intros [H | []]; discriminate).
    split; [apply release_after_three_app; assumption|].
    destruct Hia as [H | [(-> & Hin) | [(-> & p & a & -> & Ha & Hin)
                   | (-> & _)]]]; try contradiction.
    + right; right; left. split; [reflexivity|].
      exists t, r. repeat split; auto.
    + right; right; right. split; [reflexivity|].
      exists p, a, r. rewrite <- app_assoc. repeat split; auto.
  - (* nothing happens *)
    assert (~ In (@activated F false) [valueChanged r]) as Hno
      by (intros [H | []]; discriminate).
    split; [apply release_after_three_app; assumption|].
    destruct Hia as [H | [(-> & Hin) | [(-> & p & a & -> & Ha & Hin)
                   | (-> & p & a & b & -> & Ha & Hb & Hin)]]].
    + left. exact H.
    + right; left. split; [reflexivity|]. apply in_or_app; left; exact Hin.
    + right; right; left. split; [reflexivity|].
      exists (p ++ [valueChanged a]), r. repeat split; auto.
      apply in_or_app; left; exact Hin.
    + right; right; right. split; [reflexivity|].
      exists (p ++ [valueChanged a]), b, r.
      rewrite <- !app_assoc. repeat split; auto.
      apply in_or_app; left; exact Hin.
Qed.

Lemma processSamples_hysteresis (buf : list Z) :
  forall d (t : list (Signal F)),
    hysteresis_inv (is_activated d) t ->
    hysteresis_inv (is_activated (fst (processSamples d buf)))
      (t ++ snd (processSamples d buf)).
Proof.
  induction buf as [|x buf IH]; intros d t Hinv.
  - cbn. rewrite app_nil_r. exact Hinv.
  - cbn [processSamples].
    pose proof (sample_step_cases d x) as Hc.
    destruct (sample_step d x) as [d1 s1]. cbn [fst snd] in Hc.
    specialize (IH d1 (t ++ s1)).
    destruct (processSamples d1 buf) as [d2 s2]. cbn [fst snd] in *.
    rewrite app_assoc. apply IH.
    destruct Hc as [(-> & ->) | (r & -> & ->)].
    + rewrite app_nil_r. exact Hinv.
    + apply hysteresis_step. exact Hinv.
Qed.

Lemma processSamples_alternating (buf : list Z) :
  forall d,
    alternating (is_activated d =? 0)
      (activations (snd (processSamples d buf))).
Proof.
  induction buf as [|x buf IH]; intros d.
  - exact I.
  - cbn [processSamples].
    pose proof (sample_step_cases d x) as Hc.
    destruct (sample_step d x) as [d1 s1]. cbn [fst snd] in Hc.
    specialize (IH d1).
    destruct (processSamples d1 buf) as [d2 s2]. cbn [fst snd] in *.
    rewrite activations_app.
    destruct Hc as [(-> & E) | (r & -> & E)].
    + rewrite E in IH. exact IH.
    + rewrite E in IH. clear E.
      destruct (threshold_test_cases r (is_activated d))
        as [(Hge & H0 & Ht) | [(Hge & H0 & Ht) | [(Hge & H1 & Ht)
           | [(Hge & H0 & H1 & Hlt & Ht) | (Hge & Ht & Hor)]]]];
        rewrite Ht in *; cbn [fst snd activations app alternating] in *.
      * rewrite H0. split; [reflexivity | exact IH].
      * destruct (Z.eqb_spec (is_activated d) 0); [contradiction | exact IH].
      * rewrite H1. split; [reflexivity | exact IH].
      * destruct (Z.eqb_spec (is_activated d) 0); [contradiction|].
        destruct (Z.eqb_spec (is_activated d - 1) 0); [lia | exact IH].
      * exact IH.
Qed.

Lemma hysteresis_inv_range (ia : Z) (t : list (Signal F)) :
  hysteresis_inv ia t -> 0 <= ia <= 3.
Proof.
  intros [_ [-> | [(-> & _) | [(-> & _) | (-> & _)]]]]; lia.
Qed.

Lemma hysteresis_inv_nil : hysteresis_inv 0 (@nil (Signal F)).
Proof.
  split; [|left; reflexivity].
  intros p q E. destruct p; discriminate.
Qed.

(** C3.  When sample [x] ends a block of detector [d], with magnitude [r]
    (a number: it is below the threshold when it is not at or above it):
    if [r >= THRESHOLD], [activated(true)] is emitted iff [is_activated]
    was 0, and [is_activated] becomes 3; otherwise, if [is_activated > 0],
    it is decremented and [activated(false)] is emitted iff it reaches 0,
    and nothing happens if it was 0.  Consequently, on any input to a
    detector [d0] that starts inactive, the [activated] emissions strictly
    alternate, starting with [true]; each [activated(false)] comes right
    after three blocks in a row that did not reach the threshold, all
    after an [activated(true)]; and [is_activated] stays within 0..3. *)
Theorem C3_activation_hysteresis d (x : Z) (d0 : ToneDetector F)
    (buf : list Z) :
  N d <= block_pos d + 1 ->
  let r := getMagnitudeSquared (processSample d x) in
  flt r THRESHOLD = negb (fge r THRESHOLD) ->
  is_activated d0 = 0 ->
  let d' := fst (processSamples d [x]) in
  let sigs := snd (processSamples d [x]) in
  (exists acts, sigs = valueChanged r :: acts /\ values acts = [])
  /\ (fge r THRESHOLD = true ->
      is_activated d' = 3
      /\ (In (activated true) sigs <-> is_activated d = 0)
      /\ ~ In (activated false) sigs)
  /\ (fge r THRESHOLD = false ->
      ~ In (activated true) sigs
      /\ (0 < is_activated d ->
          is_activated d' = is_activated d - 1
          /\ (In (activated false) sigs <-> is_activated d' = 0))
      /\ (is_activated d = 0 ->
          is_activated d' = 0 /\ ~ In (activated false) sigs))
  /\ alternating true (activations (snd (processSamples d0 buf)))
  /\ release_after_three (snd (processSamples d0 buf))
  /\ 0 <= is_activated (fst (processSamples d0 buf)) <= 3.
Proof.
  intros Hend r Hnum Hd0 d' sigs.
  assert (processSamples d [x]
          = (after_block d r,
             valueChanged r :: snd (threshold_test r (is_activated d))))
    as Hrun.
  { cbn [processSamples]. rewrite sample_step_boundary by exact Hend.
    cbv zeta. fold r. rewrite app_nil_r. reflexivity. }
  unfold d', sigs. rewrite Hrun. cbn [fst snd after_block is_activated].
  split; [|split; [|split; [|split; [|split]]]].
  - exists (snd (threshold_test r (is_activated d))).
    split; [reflexivity | apply values_threshold_test].
  - intros Hge.
    destruct (threshold_test_cases r (is_activated d))
      as [(_ & H0 & ->) | [(_ & H0 & ->) | [(Hlo & _) | [(Hlo & _) | (Hlo & _)]]]];
      try congruence; cbn [fst snd]; (split; [reflexivity|]); split.
    + split; [intros _; exact H0 | intros _; right; left; reflexivity].
    + intros [H | [H | []]]; discriminate.
    + split; [intros [H | []]; discriminate | intros H; contradiction].
    + intros [H | []]; discriminate.
  - intros Hlo. rewrite Hlo in Hnum. cbn [negb] in Hnum.
    destruct (threshold_test_cases r (is_activated d))
      as [(Hge & _) | [(Hge & _) | [(_ & H1 & ->)
         | [(_ & H0 & H1 & _ & ->) | (_ & -> & [H0 | Hlt])]]]];
      try congruence; cbn [fst snd].
    + split; [intros [H | [H | []]]; discriminate|].
      split; [intros _ | intros H0; lia].
      split; [lia|]. split; [reflexivity | intros _; right; left; reflexivity].
    + split; [intros [H | []]; discriminate|].
      split; [intros _ | intros H; contradiction].
      split; [reflexivity|].
      split; [intros [H | []]; discriminate | intros H; lia].
    + split; [intros [H | []]; discriminate|].
      split; [intros H; lia | intros _].
      split; [exact H0 | intros [H | []]; discriminate].
  - pose proof (processSamples_alternating buf d0) as H.
    rewrite Hd0 in H. exact H.
  - pose proof (processSamples_hysteresis buf d0 []) as H.
    cbn [app] in H. apply H. rewrite Hd0. exact hysteresis_inv_nil.
  - pose proof (processSamples_hysteresis buf d0 []) as H.
    cbn [app] in H. apply (hysteresis_inv_range _ _ (H ltac:(rewrite Hd0; exact hysteresis_inv_nil))).
Qed.

End Generic.

(** ** The detector over binary64 *)

Section Binary64.

Lemma C8_sample_code_and_recurrence_witness :
  usample 1000 = 131
  /\ Q1 (processSample (d1000 205) 1000) = 131%float.
Proof.
  destruct (C8_sample_code_and_recurrence (d1000 205) 1000
              ltac:(unfold is_short; lia))
    as (Hu & _ & Hq & _).
  split.
  - rewrite Hu. reflexivity.
  - rewrite Hq. vm_compute. reflexivity.
Defined.

Lemma C7_value_changed_once_per_block_witness :
  values (snd (processSamples (d1000 2) ([0; 100] ++ [200; -300] ++ [5])))
  = [block_result coeff_1000Hz [0; 100];
     block_result coeff_1000Hz [200; -300]].
Proof.
  refine (proj1 (C7_value_changed_once_per_block (d1000 2)
                   [[0; 100]; [200; -300]] [5] _ _ _ _)).
  - vm_compute. discriminate.
  - repeat split.
  - repeat constructor.
  - vm_compute. reflexivity.
Defined.

Lemma C2_silence_amended_witness :
  values (snd (processSamples (d1000 205) (repeat 0 (2 * 205))))
  = repeat (block_result coeff_1000Hz (repeat 0 205)) 2.
Proof.
  refine (proj1 (proj2 (proj2 (C2_silence_amended (d1000 205) 2 _ _ _ _)))).
  - vm_compute. discriminate.
  - repeat split.
  - reflexivity.
  - lia.
Defined.

Lemma C3_activation_hysteresis_witness :
  alternating true
    (activations (snd (processSamples (fresh 2%float 18) (repeat 0 36)))).
Proof.
  refine (proj1 (proj2 (proj2 (proj2
    (C3_activation_hysteresis (d1000 1) 0 (fresh 2%float 18) (repeat 0 36)
       _ _ _))))).
  - vm_compute. discriminate.
  - vm_compute. reflexivity.
  - reflexivity.
Defined.

(** C2 as stated fails.  With [N = 1] the one sample 0 enters as the code
    128 and the block's value is [128*128 = 16384], not 0; and a detector
    whose coefficient is 2 (a tone of 0 Hz), with [N = 18], reports an
    activation on silence. *)
Lemma C2_silence_counterexample :
  snd (processSamples (d1000 1) (repeat 0 (1 * 1)))
  = [valueChanged 16384%float]
  /\ snd (processSamples (d1000 1) (repeat 0 (1 * 1)))
     <> repeat (valueChanged 0%float) 1
  /\ In (activated true)
       (snd (processSamples (fresh 2%float 18) (repeat 0 (2 * 18)))).
Proof.
  assert (snd (processSamples (d1000 1) (repeat 0 (1 * 1)))
          = [valueChanged 16384%float]) as E
    by (vm_compute; reflexivity).
  split; [exact E|]. split.
  - rewrite E. intros H.
    apply (f_equal (fun l => match l with
                             | valueChanged y :: _ => PrimFloat.eqb y 0%float
                             | _ => false
                             end)) in H.
    vm_compute in H. discriminate.
  - vm_compute. right. left. reflexivity.
Qed.

(** The detector of scenario S3 (1000 Hz, [N = 205]) on silence: the value
    of every block is about 95493. *)
Example silence_1000Hz_205 :
  snd (processSamples (d1000 205) (repeat 0 410))
  = [valueChanged 0x1.7504f333f9de4p+16%float;
     valueChanged 0x1.7504f333f9de4p+16%float].
Proof. vm_compute. reflexivity. Qed.

End Binary64.

End ToneFacts.

(* ====================================================================== *)
(** * Properties of the hierarchical state machine *)
(* ====================================================================== *)

Module HFSMFacts.

Import HFSM.

(** ** The class hierarchy *)

Lemma typeid_eqb_eq (a b : StateClass) : typeid_eqb a b = true <-> a = b.
Proof.
  unfold typeid_eqb. destruct (StateClass_eq_dec a b); split; congruence.
Qed.

Lemma typeid_eqb_refl (a : StateClass) : typeid_eqb a a = true.
Proof. now apply typeid_eqb_eq. Qed.

Lemma typeid_eqb_neq (a b : StateClass) : typeid_eqb a b = false <-> a <> b.
Proof.
  unfold typeid_eqb. destruct (StateClass_eq_dec a b); split; congruence.
Qed.

Lemma typeid_eqb_sym (a b : StateClass) : typeid_eqb a b = typeid_eqb b a.
Proof.
  destruct (typeid_eqb b a) eqn:E.
  - apply typeid_eqb_eq in E. subst. apply typeid_eqb_refl.
  - apply typeid_eqb_neq in E. apply typeid_eqb_neq. congruence.
Qed.

Lemma chain_head (T : StateClass) : exists l, chain T = T :: l.
Proof. destruct T; eexists; reflexivity. Qed.

Lemma derives_on_chain (T X : StateClass) : derives T X = on_chain X T.
Proof.
  unfold on_chain. induction T as [n | ParentT IH n]; cbn [derives chain existsb].
  - rewrite (typeid_eqb_sym X). destruct (typeid_eqb _ X); reflexivity.
  - rewrite (typeid_eqb_sym X). destruct (typeid_eqb _ X); [reflexivity|].
    exact IH.
Qed.

Lemma on_chain_In (X T : StateClass) : on_chain X T = true <-> In X (chain T).
Proof.
  unfold on_chain. rewrite existsb_exists. split.
  - intros (Y & HY & E). apply typeid_eqb_eq in E. now subst.
  - intros H. exists X. split; [exact H | apply typeid_eqb_refl].
Qed.

Lemma chain_depth (T Y : StateClass) : In Y (chain T) -> depth Y <= depth T.
Proof.
  induction T as [n | ParentT IH n]; cbn [chain depth]; intros [<- | H].
  - cbn. lia.
  - destruct H.
  - cbn. lia.
  - specialize (IH H). lia.
Qed.

(** The chain of a class on [T]'s chain ends [T]'s chain; what comes before
    it lies deeper. *)
Lemma chain_split (T X : StateClass) :
  In X (chain T) ->
  exists pre,
    chain T = pre ++ chain X /\ forall Y, In Y pre -> depth X < depth Y.
Proof.
  induction T as [n | ParentT IH n]; cbn [chain]; intros [<- | H].
  - exists []. split; [reflexivity | intros Y []].
  - destruct H.
  - exists []. split; [reflexivity | intros Y []].
  - destruct (IH H) as (pre & E & Hpre).
    exists (SubState ParentT n :: pre). split.
    + cbn. now rewrite E.
    + intros Y [<- | HY].
      * cbn [depth]. pose proof (chain_depth ParentT X H). lia.
      * now apply Hpre.
Qed.

Lemma find_app {A : Type} (f : A -> bool) (l1 l2 : list A) :
  find f (l1 ++ l2)
  = match find f l1 with
    | Some x => Some x
    | None => find f l2
    end.
Proof.
  induction l1 as [|x l1 IH]; cbn; [reflexivity|].
  destruct (f x); [reflexivity | exact IH].
Qed.

(** The shape of two chains around their nearest common ancestor. *)
Lemma nearest_common_ancestor_split (A B P : StateClass) :
  nearest_common_ancestor A B = Some P ->
  exists preA preB,
    chain A = preA ++ chain P
    /\ chain B = preB ++ chain P
    /\ (forall Y, In Y preA -> depth P < depth Y)
    /\ (forall Y, In Y preB -> depth P < depth Y)
    /\ (forall Y, In Y preA -> derives B Y = false)
    /\ (forall Y, In Y preB -> derives A Y = false)
    /\ derives A P = true /\ derives B P = true.
Proof.
  unfold nearest_common_ancestor. intros Hfind.
  destruct (find_some _ _ Hfind) as [HPA HPB].
  apply on_chain_In in HPB.
  destruct (chain_split A P HPA) as (preA & EA & HdA).
  destruct (chain_split B P HPB) as (preB & EB & HdB).
  exists preA, preB.
  assert (forall Y, In Y preA -> derives B Y = false) as HnA.
  { rewrite EA, find_app in Hfind.
    destruct (find (fun P0 => on_chain P0 B) preA) as [Y|] eqn:Epre.
    - injection Hfind as ->. destruct (find_some _ _ Epre) as [HY _].
      specialize (HdA _ HY). lia.
    - intros Y HY. rewrite derives_on_chain.
      exact (find_none _ _ Epre Y HY). }
  repeat split; try assumption.
  - intros Y HY.
    destruct (derives A Y) eqn:E; [|reflexivity]. exfalso.
    rewrite derives_on_chain in E. apply on_chain_In in E.
    rewrite EA in E. apply in_app_or in E. destruct E as [E | E].
    + specialize (HnA Y E). rewrite derives_on_chain in HnA.
      assert (on_chain Y B = true) as HYB.
      { apply on_chain_In. rewrite EB. apply in_or_app. now left. }
      congruence.
    + pose proof (chain_depth P Y E). specialize (HdB Y HY). lia.
  - rewrite derives_on_chain. now apply on_chain_In.
  - rewrite derives_on_chain. now apply on_chain_In.
Qed.

Lemma below_split (T P : StateClass) (pre : list StateClass) :
  chain T = pre ++ chain P ->
  (forall Y, In Y pre -> depth P < depth Y) ->
  below P T = pre.
Proof.
  unfold below. intros -> Hpre.
  induction pre as [|Y pre IH]; cbn [app strictly_below].
  - destruct (chain_head P) as (l & ->). cbn [strictly_below].
    now rewrite typeid_eqb_refl.
  - assert (typeid_eqb Y P = false) as ->.
    { apply typeid_eqb_neq. intros ->.
      specialize (Hpre P (or_introl eq_refl)). lia. }
    f_equal. apply IH. intros Z HZ. apply Hpre. now right.
Qed.

Lemma chain_nonempty (T : StateClass) : chain T <> [].
Proof. destruct (chain_head T) as (l & ->). discriminate. Qed.

Lemma exits_of_split (to : option StateObj) (P : StateClass)
    (pre : list StateClass) :
  forall T,
    chain T = pre ++ chain P ->
    (forall Y, In Y pre -> dynamic_cast Y to = false) ->
    dynamic_cast P to = true ->
    exits_of T to = pre.
Proof.
  induction pre as [|Y pre IH]; intros T E Hpre HP.
  - cbn [app] in E.
    assert (T = P) as ->.
    { destruct (chain_head T) as (l1 & E1), (chain_head P) as (l2 & E2).
      congruence. }
    destruct P; cbn [exits_of]; now rewrite HP.
  - destruct T as [n | ParentT n]; cbn [chain app] in E.
    + injection E as -> E. symmetry in E.
      apply app_eq_nil in E. destruct E as [_ E].
      now apply chain_nonempty in E.
    + injection E as EY E. subst Y.
      cbn [exits_of]. rewrite (Hpre _ (or_introl eq_refl)).
      f_equal. apply IH; auto. intros Z HZ. apply Hpre. now right.
Qed.

Lemma entries_of_split (from : option StateObj) (P : StateClass)
    (pre : list StateClass) :
  forall T,
    chain T = pre ++ chain P ->
    (forall Y, In Y pre -> dynamic_cast Y from = false) ->
    dynamic_cast P from = true ->
    entries_of T from = rev pre.
Proof.
  induction pre as [|Y pre IH]; intros T E Hpre HP.
  - cbn [app] in E.
    assert (T = P) as ->.
    { destruct (chain_head T) as (l1 & E1), (chain_head P) as (l2 & E2).
      congruence. }
    destruct P; cbn [entries_of]; now rewrite HP.
  - destruct T as [n | ParentT n]; cbn [chain app] in E.
    + injection E as -> E. symmetry in E.
      apply app_eq_nil in E. destruct E as [_ E].
      now apply chain_nonempty in E.
    + injection E as EY E. subst Y.
      cbn [entries_of rev]. rewrite (Hpre _ (or_introl eq_refl)).
      f_equal. apply IH; auto. intros Z HZ. apply Hpre. now right.
Qed.

(** Two state classes of one machine have a nearest common ancestor. *)
Lemma nearest_common_ancestor_exists (A B StateTopT : StateClass) :
  derives A StateTopT = true -> derives B StateTopT = true ->
  exists P, nearest_common_ancestor A B = Some P.
Proof.
  intros HA HB. unfold nearest_common_ancestor.
  destruct (find (fun P => on_chain P B) (chain A)) as [P|] eqn:E.
  - now exists P.
  - exfalso. rewrite derives_on_chain in HA, HB.
    apply on_chain_In in HA.
    pose proof (find_none _ _ E StateTopT HA) as H. cbv beta in H. congruence.
Qed.

(** ** The machine *)

Section MachineFacts.

Variable ContextT : Type.
Variable init : StateClass -> Code ContextT.
Variable entry : StateClass -> Hook ContextT.
Variable exit : StateClass -> Hook ContextT.
Variable timeoutEvent : StateClass -> option (Code ContextT).

Local Abbreviation SM := (StateMachine ContextT).
Local Abbreviation set_state := (setState init entry exit).
Local Abbreviation init_handler := (initHandler init entry exit).
Local Abbreviation exit_handler := (exitHandler exit).
Local Abbreviation entry_handler := (entryHandler entry).
Local Abbreviation finish := (finish_transition entry exit).

Implicit Types m : SM.

Lemma ptr_eqb_refl (p : option StateObj) : ptr_eqb p p = true.
Proof. destruct p; cbn; [apply Nat.eqb_refl | reflexivity]. Qed.

(** [entry] and [exit] bodies touch the context and the timer only. *)
Lemma run_hook_fields (h : Hook ContextT) :
  forall m,
    m_state (run_hook h m) = m_state m
    /\ next_addr (run_hook h m) = next_addr m
    /\ log (run_hook h m) = log m.
Proof.
  induction h as [| ms k IH | k IH | k IH | c k IH]; intros m; cbn [run_hook].
  - repeat split.
  - apply (IH (setTimeout ms m)).
  - apply (IH (clearTimeout m)).
  - apply (IH (m_ctx m) m).
  - apply (IH (set_m_ctx c m)).
Qed.

Lemma run_hook_no_arming (h : Hook ContextT) :
  forall m,
    no_arming h -> is_enabled (m_timer m) = false ->
    is_enabled (m_timer (run_hook h m)) = false.
Proof.
  induction h as [| ms k IH | k IH | k IH | c k IH]; intros m Hna Hoff;
    cbn [run_hook no_arming] in *.
  - exact Hoff.
  - destruct Hna.
  - apply IH; [exact Hna | reflexivity].
  - apply IH; [apply Hna | exact Hoff].
  - apply IH; [exact Hna | exact Hoff].
Qed.

(** What [exitHandler] and [entryHandler] add to the log. *)
Lemma exitHandler_fields (T : StateClass) (this : StateObj)
    (to : option StateObj) :
  forall m,
    m_state (exit_handler T this to m) = m_state m
    /\ next_addr (exit_handler T this to m) = next_addr m
    /\ log (exit_handler T this to m)
       = log m ++ map (EvExit this) (exits_of T to).
Proof.
  induction T as [n | ParentT IH n]; intros m; cbn [exitHandler exits_of];
    destruct (dynamic_cast _ to); cbn [map];
    try (rewrite app_nil_r; repeat split).
  - destruct (run_hook_fields (exit (TopState n))
                (emit (EvExit this (TopState n)) (clearTimeout m)))
      as (H1 & H2 & H3).
    rewrite H1, H2, H3. repeat split.
  - destruct (IH (run_hook (exit (SubState ParentT n))
                    (emit (EvExit this (SubState ParentT n))
                       (clearTimeout m))))
      as (H1 & H2 & H3).
    destruct (run_hook_fields (exit (SubState ParentT n))
                (emit (EvExit this (SubState ParentT n)) (clearTimeout m)))
      as (G1 & G2 & G3).
    rewrite H1, H2, H3, G1, G2, G3. cbn [emit log m_state next_addr clearTimeout].
    rewrite <- app_assoc. repeat split.
Qed.

Lemma entryHandler_fields (T : StateClass) (this : StateObj)
    (from : option StateObj) :
  forall m,
    m_state (entry_handler T this from m) = m_state m
    /\ next_addr (entry_handler T this from m) = next_addr m
    /\ log (entry_handler T this from m)
       = log m ++ map (EvEntry this) (entries_of T from).
Proof.
  induction T as [n | ParentT IH n]; intros m; cbn [entryHandler entries_of];
    destruct (dynamic_cast _ from); cbn [map app];
    try (rewrite app_nil_r; repeat split).
  - destruct (run_hook_fields (entry (TopState n))
                (emit (EvEntry this (TopState n)) m))
      as (H1 & H2 & H3).
    rewrite H1, H2, H3. repeat split.
  - destruct (run_hook_fields (entry (SubState ParentT n))
                (emit (EvEntry this (SubState ParentT n))
                   (entry_handler ParentT this from m)))
      as (G1 & G2 & G3).
    destruct (IH m) as (H1 & H2 & H3).
    rewrite G1, G2, G3. cbn [emit log m_state next_addr].
    rewrite H1, H2, H3, map_app, app_assoc. repeat split.
Qed.

(** ** How the machine evolves *)

Lemma evolves_refl m : evolves m m.
Proof.
  repeat split; auto.
  exists []. now rewrite app_nil_r.
Qed.

Lemma evolves_trans m1 m2 m3 : evolves m1 m2 -> evolves m2 m3 -> evolves m1 m3.
Proof.
  intros ((l1 & E1) & N1 & W1 & S1) ((l2 & E2) & N2 & W2 & S2).
  repeat split.
  - exists (l1 ++ l2). now rewrite E2, E1, app_assoc.
  - lia.
  - auto.
  - destruct S2 as [S2 | (o & S2 & Ho)].
    + rewrite S2. exact S1.
    + right. exists o. split; [exact S2 | lia].
Qed.

(** A step that keeps the current state and the allocator. *)
Lemma evolves_same m m' (l : list Event) :
  m_state m' = m_state m -> next_addr m' = next_addr m ->
  log m' = log m ++ l ->
  evolves m m'.
Proof.
  intros Hs Hn Hl. repeat split.
  - now exists l.
  - lia.
  - intros Hwf o Ho. rewrite Hn. apply Hwf. congruence.
  - now left.
Qed.

Lemma evolves_new_state (T : StateClass) m :
  evolves m (snd (new_state T m)).
Proof.
  cbn. repeat split; cbn.
  - eexists; reflexivity.
  - lia.
  - intros Hwf o Ho. cbn in Ho |- *. specialize (Hwf o Ho). lia.
  - now left.
Qed.

Lemma exec_evolves
    (ss : StateClass -> SM -> Result SM) :
  (forall T m m', ss T m = Done m' -> evolves m m') ->
  forall (c : Code ContextT) m m', exec ss c m = Done m' -> evolves m m'.
Proof.
  intros Hss.
  induction c as [| T k IH | ms k IH | k IH | k IH | c' k IH];
    intros m m' H; cbn [exec] in H.
  - injection H as <-. apply evolves_refl.
  - destruct (ss T m) as [m1| |] eqn:E; try discriminate.
    eapply evolves_trans; [exact (Hss _ _ _ E) | exact (IH _ _ H)].
  - eapply evolves_trans; [|exact (IH _ _ H)].
    apply (evolves_same _ _ []); cbn; auto using app_nil_r.
  - eapply evolves_trans; [|exact (IH _ _ H)].
    apply (evolves_same _ _ []); cbn; auto using app_nil_r.
  - exact (IH _ _ _ H).
  - eapply evolves_trans; [|exact (IH _ _ H)].
    apply (evolves_same _ _ []); cbn; auto using app_nil_r.
Qed.

Lemma finish_evolves (old_state : option StateObj) (state : StateObj)
    m m1 :
  evolves m m1 -> addr state = next_addr m -> next_addr m < next_addr m1 ->
  evolves m (finish old_state state m1).
Proof.
  intros Hev Hst Hlt. unfold finish_transition.
  destruct (negb (ptr_eqb old_state (m_state m1))).
  - eapply evolves_trans; [exact Hev|].
    apply (evolves_same _ _ [EvDelete state]); reflexivity.
  - set (m2 := match old_state with
               | Some o => exit_handler (typeId o) o (Some state) m1
               | None => m1
               end).
    assert (exists l, m_state m2 = m_state m1 /\ next_addr m2 = next_addr m1
                      /\ log m2 = log m1 ++ l) as (l2 & S2 & N2 & L2).
    { unfold m2. destruct old_state as [o|].
      - destruct (exitHandler_fields (typeId o) o (Some state) m1)
          as (H1 & H2 & H3).
        eexists; eauto.
      - exists []. now rewrite app_nil_r. }
    set (m3 := emit (EvInstall state) (set_m_state (Some state) m2)).
    destruct (entryHandler_fields (typeId state) state old_state m3)
      as (S4 & N4 & L4).
    set (m4 := entry_handler (typeId state) state old_state m3) in *.
    assert (m_state (delete old_state m4) = Some state
            /\ next_addr (delete old_state m4) = next_addr m1
            /\ exists l, log (delete old_state m4) = log m1 ++ l)
      as (S5 & N5 & (l5 & L5)).
    { destruct old_state; cbn [delete emit m_state next_addr log];
        rewrite ?S4, ?N4, ?L4; unfold m3;
        cbn [emit set_m_state m_state next_addr log]; rewrite ?N2, ?L2;
        (split; [reflexivity|]); (split; [reflexivity|]);
        rewrite <- ?app_assoc; eexists; reflexivity. }
    destruct Hev as ((l1 & E1) & N1 & W1 & S1).
    repeat split.
    + exists (l1 ++ l5). now rewrite L5, E1, app_assoc.
    + lia.
    + intros _ o Ho. rewrite S5 in Ho. injection Ho as <-. lia.
    + right. exists state. split; [exact S5 | lia].
Qed.

Lemma setState_evolves (fuel : nat) :
  forall (T : StateClass) m m', set_state fuel T m = Done m' -> evolves m m'.
Proof.
  induction fuel as [|fuel IH]; intros T m m' H; cbn [setState] in H;
    [discriminate|].
  cbn [new_state] in H.
  set (state := mkObj (next_addr m) T) in *.
  set (m0 := emit (EvNew state) _) in *.
  assert (evolves m m0) as H0 by apply (evolves_new_state T m).
  destruct (match m_state m0 with
            | Some o => typeid_eqb T (typeId o)
            | None => false
            end).
  - injection H as <-.
    eapply evolves_trans; [exact H0|].
    apply (evolves_same _ _ [EvDelete state]); reflexivity.
  - destruct (exec (set_state fuel) (init T) (emit (EvInit state) m0))
      as [m1| |] eqn:E; try discriminate.
    injection H as <-.
    apply finish_evolves; [|reflexivity|].
    + eapply evolves_trans; [exact H0|].
      eapply evolves_trans; [|exact (exec_evolves _ IH _ _ _ E)].
      apply (evolves_same _ _ [EvInit state]); reflexivity.
    + pose proof (exec_evolves _ IH _ _ _ E) as (_ & Hn & _).
      cbn in Hn. lia.
Qed.

(** ** Transitions *)

Lemma setState_unfold (fuel : nat) (T : StateClass) m :
  set_state (S fuel) T m =
  let state := mkObj (next_addr m) T in
  let m0 := snd (new_state T m) in
  if match m_state m with
     | Some o => typeid_eqb T (typeId o)
     | None => false
     end
  then Done (delete (Some state) m0)
  else match init_handler fuel state m0 with
       | Done m1 => Done (finish (m_state m) state m1)
       | Diverge => Diverge
       | Fault => Fault
       end.
Proof. reflexivity. Qed.

Lemma initHandler_evolves (fuel : nat) (state : StateObj) m0 m1 :
  init_handler fuel state m0 = Done m1 ->
  evolves m0 m1 /\ exists rest, log m1 = log m0 ++ EvInit state :: rest.
Proof.
  unfold initHandler. intros H.
  pose proof (exec_evolves _ (setState_evolves fuel) _ _ _ H) as Hev.
  split.
  - eapply evolves_trans; [|exact Hev].
    apply (evolves_same _ _ [EvInit state]); reflexivity.
  - destruct Hev as ((l & E) & _). exists l.
    rewrite E. cbn [emit log]. now rewrite <- app_assoc.
Qed.

Lemma finish_log_prefix (old_state : option StateObj) (state : StateObj) m1 :
  exists l, log (finish old_state state m1) = log m1 ++ l.
Proof.
  unfold finish_transition.
  destruct (negb (ptr_eqb old_state (m_state m1))).
  - eexists; reflexivity.
  - destruct old_state as [o|]; cbn [delete emit log].
    + destruct (entryHandler_fields (typeId state) state (Some o)
                  (emit (EvInstall state)
                     (set_m_state (Some state)
                        (exit_handler (typeId o) o (Some state) m1))))
        as (_ & _ & L).
      destruct (exitHandler_fields (typeId o) o (Some state) m1)
        as (_ & _ & L').
      rewrite L. cbn [emit set_m_state log]. rewrite L'.
      rewrite <- !app_assoc. eexists; reflexivity.
    + destruct (entryHandler_fields (typeId state) state None
                  (emit (EvInstall state) (set_m_state (Some state) m1)))
        as (_ & _ & L).
      rewrite L. cbn [emit set_m_state log].
      rewrite <- !app_assoc. eexists; reflexivity.
Qed.

(** More fuel does not change what a run returns. *)
Lemma exec_mono (ss ss' : StateClass -> SM -> Result SM) :
  (forall T m m', ss T m = Done m' -> ss' T m = Done m') ->
  forall (c : Code ContextT) m m',
    exec ss c m = Done m' -> exec ss' c m = Done m'.
Proof.
  intros Hss.
  induction c as [| T k IH | ms k IH | k IH | k IH | c' k IH];
    intros m m' H; cbn [exec] in *; auto.
  destruct (ss T m) as [m1| |] eqn:E; try discriminate.
  rewrite (Hss _ _ _ E). auto.
Qed.

Lemma setState_fuel_mono (fuel : nat) :
  forall (T : StateClass) m m',
    set_state fuel T m = Done m' -> set_state (S fuel) T m = Done m'.
Proof.
  induction fuel as [|fuel IH]; intros T m m' H; [discriminate|].
  rewrite setState_unfold in H. rewrite setState_unfold. cbv zeta in *.
  destruct (match m_state m with
            | Some o => typeid_eqb T (typeId o)
            | None => false
            end); [exact H|].
  unfold initHandler in *.
  destruct (exec (set_state fuel) _ _) as [m1| |] eqn:E; try discriminate.
  now rewrite (exec_mono _ _ IH _ _ _ E).
Qed.

(** A transition that returns leaves a current state. *)
Lemma setState_current (fuel : nat) (T : StateClass) m m' :
  set_state fuel T m = Done m' -> exists o, m_state m' = Some o.
Proof.
  destruct fuel as [|fuel]; [discriminate|].
  rewrite setState_unfold. cbv zeta.
  destruct (m_state m) as [a|] eqn:Ea.
  - destruct (typeid_eqb T (typeId a)).
    + intros H. injection H as <-. exists a. exact Ea.
    + destruct (init_handler fuel _ _) as [m1| |] eqn:E; try discriminate.
      intros H. injection H as <-.
      destruct (initHandler_evolves _ _ _ _ E) as ((_ & _ & _ & Hs) & _).
      unfold finish_transition.
      destruct (ptr_eqb (Some a) (m_state m1)) eqn:Ep; cbn [negb].
      * cbn [delete emit m_state]. eexists.
        rewrite (proj1 (entryHandler_fields _ _ _ _)). reflexivity.
      * destruct Hs as [Hs | (o & Hs & _)].
        -- cbn in Hs. rewrite Ea in Hs. rewrite Hs, ptr_eqb_refl in Ep.
           discriminate.
        -- exists o. exact Hs.
  - destruct (init_handler fuel _ _) as [m1| |] eqn:E; try discriminate.
    intros H. injection H as <-.
    destruct (initHandler_evolves _ _ _ _ E) as ((_ & _ & _ & Hs) & _).
    unfold finish_transition.
    destruct (ptr_eqb None (m_state m1)) eqn:Ep; cbn [negb].
    + cbn [delete]. eexists.
      rewrite (proj1 (entryHandler_fields _ _ _ _)). reflexivity.
    + destruct Hs as [Hs | (o & Hs & _)].
      * cbn in Hs. rewrite Ea in Hs. rewrite Hs in Ep. discriminate.
      * exists o. exact Hs.
Qed.

(** C5.  [setState<Current>()] while the current state has class
    [Current] does nothing: the candidate object is made and deleted
    again, no [init], [entry] or [exit] is called, and the current state
    object, the context and the timer are as before. *)
Theorem C5_same_state_noop (fuel : nat) m (o : StateObj) :
  m_state m = Some o ->
  let cand := mkObj (next_addr m) (typeId o) in
  exists m',
    set_state (S fuel) (typeId o) m = Done m'
    /\ m_state m' = Some o
    /\ m_ctx m' = m_ctx m
    /\ m_timer m' = m_timer m
    /\ log m' = log m ++ [EvNew cand; EvDelete cand].
Proof.
  intros Ho cand. rewrite setState_unfold. cbv zeta.
  rewrite Ho, typeid_eqb_refl. eexists. split; [reflexivity|].
  cbn. rewrite <- app_assoc. repeat split. exact Ho.
Qed.

(** When no address is reused (as [new_state] allocates).  In
    [setState<New>()] for a class [New] other than the current one, [init]
    of the candidate is the first handler called.  If the current state is
    another object when [init] returns (a nested [setState] has run), the
    candidate is deleted and the transition returns at once: no [exit] or
    [entry] handler runs for it, the candidate is not installed, and the
    current state is the one the nested transition left.  (With an
    allocator that reuses addresses this fails: see [HFSMReuseFacts].) *)
Lemma init_redirect_without_reuse (fuel : nat) (NewStateT : StateClass) m m1 :
  let state := mkObj (next_addr m) NewStateT in
  wf_machine m ->
  (forall o, m_state m = Some o -> typeId o <> NewStateT) ->
  init_handler fuel state (snd (new_state NewStateT m)) = Done m1 ->
  (exists m' rest,
     set_state (S fuel) NewStateT m = Done m'
     /\ log m' = log m ++ EvNew state :: EvInit state :: rest)
  /\ (m_state m1 <> m_state m ->
      set_state (S fuel) NewStateT m = Done (delete (Some state) m1)
      /\ m_state (delete (Some state) m1) = m_state m1
      /\ m_state m1 <> Some state
      /\ log (delete (Some state) m1) = log m1 ++ [EvDelete state]).
Proof.
  intros state Hwf Hty Hinit.
  assert (set_state (S fuel) NewStateT m
          = Done (finish (m_state m) state m1)) as Hrun.
  { rewrite setState_unfold. cbv zeta. fold state. rewrite Hinit.
    destruct (m_state m) as [a|] eqn:Ea; [|reflexivity].
    assert (typeid_eqb NewStateT (typeId a) = false) as ->; [|reflexivity].
    apply typeid_eqb_neq. intros E. exact (Hty a eq_refl (eq_sym E)). }
  destruct (initHandler_evolves _ _ _ _ Hinit)
    as ((_ & Hn & _ & Hs) & (rest & Hlog)).
  split.
  - destruct (finish_log_prefix (m_state m) state m1) as (l & Hl).
    exists (finish (m_state m) state m1), (rest ++ l).
    split; [exact Hrun|].
    rewrite Hl, Hlog. cbn [new_state snd emit log].
    rewrite <- !app_assoc. reflexivity.
  - intros Hred.
    assert (exists o, m_state m1 = Some o /\ S (next_addr m) <= addr o)
      as (o & Ho & Hfresh).
    { destruct Hs as [Hs | Hs]; [cbn in Hs; congruence | exact Hs]. }
    assert (ptr_eqb (m_state m) (m_state m1) = false) as Hp.
    { rewrite Ho. destruct (m_state m) as [a|] eqn:Ea; [|reflexivity].
      cbn [ptr_eqb]. apply Nat.eqb_neq. specialize (Hwf a Ea). lia. }
    repeat split.
    + rewrite Hrun. unfold finish_transition. now rewrite Hp.
    + rewrite Ho. intros E. injection E as ->. cbn in Hfresh. lia.
Qed.

(** C1.  A transition from the active state object [a], of class [A], to
    another class [B] whose [init] returns with [a] still current, with
    [P] the nearest common ancestor of [A] and [B], goes through: after
    [init], [exit] is called for each class on [A]'s chain strictly below
    [P], bottom-up; then the new object [b] is installed; then [entry] is
    called for each class on [B]'s chain strictly below [P], top-down;
    and only then [a] is deleted.  No class at or above [P] is among the
    exited or entered ones. *)
Theorem C1_transition_order (fuel : nat) m m1 (a : StateObj)
    (B P : StateClass) :
  let b := mkObj (next_addr m) B in
  m_state m = Some a ->
  typeId a <> B ->
  nearest_common_ancestor (typeId a) B = Some P ->
  init_handler fuel b (snd (new_state B m)) = Done m1 ->
  m_state m1 = Some a ->
  exists m',
    set_state (S fuel) B m = Done m'
    /\ m_state m' = Some b
    /\ log m' = log m1
                ++ map (EvExit a) (below P (typeId a))
                ++ [EvInstall b]
                ++ map (EvEntry b) (rev (below P B))
                ++ [EvDelete a]
    /\ (exists rest, log m1 = log m ++ EvNew b :: EvInit b :: rest)
    /\ (forall X, In X (chain P) ->
          ~ In X (below P (typeId a)) /\ ~ In X (below P B)).
Proof.
  intros b Ha Hne Hnca Hinit Hm1.
  destruct (nearest_common_ancestor_split _ _ _ Hnca)
    as (preA & preB & EA & EB & HdA & HdB & HnA & HnB & HPA & HPB).
  rewrite (below_split _ _ _ EA HdA), (below_split _ _ _ EB HdB).
  exists (finish (Some a) b m1).
  split; [|split; [|split; [|split]]].
  - rewrite setState_unfold. cbv zeta. fold b. rewrite Ha.
    assert (typeid_eqb B (typeId a) = false) as ->
      by (apply typeid_eqb_neq; congruence).
    now rewrite Hinit.
  - unfold finish_transition. rewrite Hm1, ptr_eqb_refl. cbn [negb delete emit m_state].
    rewrite (proj1 (entryHandler_fields _ _ _ _)). reflexivity.
  - unfold finish_transition. rewrite Hm1, ptr_eqb_refl.
    cbn [negb delete emit log].
    destruct (entryHandler_fields (typeId b) b (Some a)
                (emit (EvInstall b)
                   (set_m_state (Some b)
                      (exit_handler (typeId a) a (Some b) m1))))
      as (_ & _ & L).
    destruct (exitHandler_fields (typeId a) a (Some b) m1) as (_ & _ & L').
    rewrite L. cbn [emit set_m_state log]. rewrite L'.
    rewrite (exits_of_split (Some b) P preA (typeId a) EA)
      by (cbn [dynamic_cast typeId b]; auto).
    rewrite (entries_of_split (Some a) P preB (typeId b) EB)
      by (cbn [dynamic_cast typeId b]; auto).
    rewrite <- !app_assoc. reflexivity.
  - destruct (initHandler_evolves _ _ _ _ Hinit) as (_ & (rest & Hlog)).
    exists rest. rewrite Hlog. cbn [new_state snd emit log].
    rewrite <- !app_assoc. reflexivity.
  - intros X HX. pose proof (chain_depth _ _ HX) as Hd.
    split; intros Hin; [specialize (HdA _ Hin) | specialize (HdB _ Hin)]; lia.
Qed.

(** ** The timeout *)

Lemma exitHandler_disabled (this : StateObj) (to : option StateObj)
    (T : StateClass) :
  forall m,
    is_enabled (m_timer m) = false ->
    (forall X, In X (exits_of T to) -> no_arming (exit X)) ->
    is_enabled (m_timer (exit_handler T this to m)) = false.
Proof.
  induction T as [n | ParentT IH n]; intros m Hoff Hna;
    cbn [exitHandler exits_of] in *;
    destruct (dynamic_cast _ to); try exact Hoff.
  - apply run_hook_no_arming; [apply Hna; now left | reflexivity].
  - apply IH.
    + apply run_hook_no_arming; [apply Hna; now left | reflexivity].
    + intros X HX. apply Hna. now right.
Qed.

Lemma exitHandler_clears (this : StateObj) (to : option StateObj)
    (T : StateClass) m :
  dynamic_cast T to = false ->
  exit_handler T this to m = exit_handler T this to (clearTimeout m).
Proof.
  intros H. destruct T; cbn [exitHandler]; rewrite H; reflexivity.
Qed.

Lemma timer_expired_disabled (fuel : nat) m :
  is_enabled (m_timer m) = false ->
  timer_expired init entry exit timeoutEvent fuel m = Done m.
Proof. unfold timer_expired. now intros ->. Qed.

(** C6.  When [exitHandler] exits a state ([to] is not of class [T]) it
    first clears the timeout: a timeout pending at that moment has no part
    in what follows; and, the [exit] functions it runs arming no new one,
    the timer is disabled afterwards and its expiry delivers no
    [timeoutEvent].  After a dispatch of [timeoutEvent] the timer is
    disabled, so that the same arming delivers nothing again.
    [clearTimeout] is idempotent and does nothing when no timeout is
    pending. *)
Theorem C6_timeout_cleared_on_exit (fuel : nat) (T : StateClass)
    (this : StateObj) (to : option StateObj) m :
  dynamic_cast T to = false ->
  (forall X, In X (exits_of T to) -> no_arming (exit X)) ->
  let m' := exit_handler T this to m in
  exit_handler T this to m = exit_handler T this to (clearTimeout m)
  /\ is_enabled (m_timer m') = false
  /\ timer_expired init entry exit timeoutEvent fuel m' = Done m'
  /\ (forall m0 m1,
        timer_expired init entry exit timeoutEvent fuel m0 = Done m1 ->
        is_enabled (m_timer m1) = false
        /\ timer_expired init entry exit timeoutEvent fuel m1 = Done m1)
  /\ (forall m0, clearTimeout (clearTimeout m0) = clearTimeout m0)
  /\ (forall m0, is_enabled (m_timer m0) = false -> clearTimeout m0 = m0).
Proof.
  intros Hexit Hna m'.
  assert (is_enabled (m_timer m') = false) as Hoff.
  { unfold m'. rewrite (exitHandler_clears this to T m Hexit).
    apply exitHandler_disabled; [reflexivity | exact Hna]. }
  split; [exact (exitHandler_clears this to T m Hexit)|].
  split; [exact Hoff|].
  split; [exact (timer_expired_disabled fuel m' Hoff)|].
  split; [|split].
  - intros m0 m1 H.
    assert (is_enabled (m_timer m1) = false) as Hoff1.
    { unfold timer_expired in H.
      destruct (is_enabled (m_timer m0)) eqn:E.
      - destruct (m_state m0) as [o|]; try discriminate.
        destruct (timeoutEvent (typeId o)) as [body|]; try discriminate.
        destruct (exec _ body _) as [m2| |]; try discriminate.
        injection H as <-. reflexivity.
      - injection H as <-. exact E. }
    split; [exact Hoff1 | exact (timer_expired_disabled fuel m1 Hoff1)].
  - intros m0. reflexivity.
  - intros [st cx [ms en] na lg] Hen. cbn in Hen. subst en. reflexivity.
Qed.

(** ** Access to the current state *)

(** C10.  [isActive<T>()] and [state()] dereference [m_state], which is
    null in the machine as constructed: there they are undefined.  Once
    [start()] has returned there is a current state object [o]; [state()]
    is [o], and [isActive<T>()] is true exactly when [T] is the class of
    [o]. *)
Theorem C10_active_state_access (fuel : nat) (ctx : ContextT)
    (StateTopT : StateClass) m' :
  start init entry exit fuel StateTopT (StateMachine_ctor ctx) = Done m' ->
  m_state (StateMachine_ctor ctx) = None
  /\ (forall T, isActive T (StateMachine_ctor ctx) = Fault)
  /\ state (StateMachine_ctor ctx) = Fault
  /\ exists o,
       m_state m' = Some o
       /\ state m' = Done o
       /\ forall T,
            isActive T m' = Done (typeid_eqb T (typeId o))
            /\ (isActive T m' = Done true <-> T = typeId o).
Proof.
  intros Hstart. unfold start in Hstart.
  destruct (setState_current _ _ _ _ Hstart) as (o & Ho).
  repeat split.
  exists o. split; [exact Ho|].
  unfold state, isActive. rewrite Ho. split; [reflexivity|].
  intros T. split; [reflexivity|]. split.
  - intros H. injection H as H. now apply typeid_eqb_eq.
  - intros ->. now rewrite typeid_eqb_refl.
Qed.

End MachineFacts.

(** ** Scenarios S5 and S6 *)

(** S5: [start()] enters [Top], [A], [A1], in this order, and exits
    nothing. *)
Example S5_nested_init :
  start Demo.init Demo.entry Demo.exit 3 Demo.Top Demo.constructed
  = Done Demo.started.
Proof. vm_compute. reflexivity. Qed.

(** S6: from [A1] to [B1]: [exit] of [A1], then of [A]; [entry] of [B],
    then of [B1]; [Top] receives neither. *)
Example S6_sibling_transition :
  exists m',
    setState Demo.init Demo.entry Demo.exit 1 Demo.B1 Demo.started = Done m'
    /\ log m' = log Demo.started
                ++ [EvNew Demo.b1; EvInit Demo.b1;
                    EvExit Demo.a1 Demo.A1; EvExit Demo.a1 Demo.A;
                    EvInstall Demo.b1;
                    EvEntry Demo.b1 Demo.B; EvEntry Demo.b1 Demo.B1;
                    EvDelete Demo.a1].
Proof. eexists. split; vm_compute; reflexivity. Qed.

(** The timeout of [A1] expires: [timeoutEvent] takes the machine to [B1]
    and the timer is disabled. *)
Example timeout_dispatch :
  exists m',
    timer_expired Demo.init Demo.entry Demo.exit Demo.timeoutEvent 2
      Demo.started = Done m'
    /\ m_state m' = Some Demo.b1'
    /\ is_enabled (m_timer m') = false.
Proof. eexists. split; [vm_compute; reflexivity | split; reflexivity]. Qed.

Lemma C1_transition_order_witness :
  exists m',
    setState Demo.init Demo.entry Demo.exit 1 Demo.B1 Demo.started = Done m'
    /\ m_state m' = Some Demo.b1
    /\ log m' = log Demo.started_init_B1
                ++ [EvExit Demo.a1 Demo.A1; EvExit Demo.a1 Demo.A]
                ++ [EvInstall Demo.b1]
                ++ [EvEntry Demo.b1 Demo.B; EvEntry Demo.b1 Demo.B1]
                ++ [EvDelete Demo.a1].
Proof.
  destruct (C1_transition_order unit Demo.init Demo.entry Demo.exit 0
              Demo.started Demo.started_init_B1 Demo.a1 Demo.B1 Demo.Top)
    as (m' & H1 & H2 & H3 & _).
  - reflexivity.
  - vm_compute. discriminate.
  - vm_compute. reflexivity.
  - vm_compute. reflexivity.
  - reflexivity.
  - exists m'. split; [exact H1|]. split; [exact H2 | exact H3].
Defined.

Example init_redirect_without_reuse_started :
  setState Demo.init Demo.entry Demo.exit 2 Demo.B Demo.started
  = Done (delete (Some (mkObj 3 Demo.B)) Demo.started_init_B)
  /\ m_state (delete (Some (mkObj 3 Demo.B)) Demo.started_init_B)
     = Some Demo.b1'.
Proof.
  destruct (init_redirect_without_reuse unit Demo.init Demo.entry Demo.exit 1
              Demo.B Demo.started Demo.started_init_B)
    as (_ & H).
  - intros o Ho. vm_compute in Ho. injection Ho as <-. vm_compute. lia.
  - intros o Ho. vm_compute in Ho. injection Ho as <-. vm_compute.
    discriminate.
  - vm_compute. reflexivity.
  - destruct H as (H1 & H2 & _).
    + vm_compute. discriminate.
    + split; [exact H1 | exact H2].
Qed.

Lemma C5_same_state_noop_witness :
  exists m',
    setState Demo.init Demo.entry Demo.exit 1 Demo.A1 Demo.started = Done m'
    /\ m_state m' = Some Demo.a1
    /\ log m' = log Demo.started
                ++ [EvNew (mkObj 3 Demo.A1); EvDelete (mkObj 3 Demo.A1)].
Proof.
  destruct (C5_same_state_noop unit Demo.init Demo.entry Demo.exit 0
              Demo.started Demo.a1 eq_refl)
    as (m' & H1 & H2 & _ & _ & H5).
  exists m'. split; [exact H1|]. split; [exact H2 | exact H5].
Defined.

Lemma C6_timeout_cleared_on_exit_witness :
  is_enabled (m_timer Demo.started) = true
  /\ is_enabled
       (m_timer (exitHandler Demo.exit Demo.A1 Demo.a1 (Some Demo.b1)
                   Demo.started)) = false.
Proof.
  split; [reflexivity|].
  refine (proj1 (proj2 (C6_timeout_cleared_on_exit unit Demo.init Demo.entry
                          Demo.exit Demo.timeoutEvent 1 Demo.A1 Demo.a1
                          (Some Demo.b1) Demo.started _ _))).
  - vm_compute. reflexivity.
  - intros X _. exact I.
Defined.

Lemma C10_active_state_access_witness :
  isActive Demo.Top Demo.constructed = Fault
  /\ exists o,
       m_state Demo.started = Some o
       /\ isActive Demo.A1 Demo.started
          = Done (typeid_eqb Demo.A1 (typeId o)).
Proof.
  destruct (C10_active_state_access unit Demo.init Demo.entry Demo.exit 3 tt
              Demo.Top Demo.started)
    as (_ & H1 & _ & (o & Ho & _ & H3)).
  - vm_compute. reflexivity.
  - split; [exact (H1 Demo.Top)|].
    exists o. split; [exact Ho | exact (proj1 (H3 Demo.A1))].
Defined.

End HFSMFacts.

(* ====================================================================== *)
(** * Properties of the splitter's back-pressure algorithm *)
(* ====================================================================== *)

Module SplitterFacts.

Import Splitter.

Section Facts.

Variable Sample : Type.

Local Abbreviation SP := (AudioSplitter Sample).

Implicit Types s : SP.

Lemma step_settle (op : Op Sample) s : step op s = settle (answered op s).
Proof. destruct op; reflexivity. Qed.

Lemma answered_stopped (op : Op Sample) s :
  input_stopped (answered op s) = input_stopped s
  /\ sent (answered op s) = sent s.
Proof. destruct op; split; reflexivity. Qed.

Lemma min_cursor_le_buf_len s : min_cursor s <= buf_len s.
Proof.
  unfold min_cursor. induction (branches s) as [|b l IH]; cbn [fold_right].
  - lia.
  - destruct (enabled b); lia.
Qed.

Lemma min_cursor_le_cursor s (b : Branch) :
  In b (branches s) -> enabled b = true -> min_cursor s <= cursor b.
Proof.
  unfold min_cursor. induction (branches s) as [|c l IH]; cbn [fold_right In].
  - intros [].
  - intros [-> | H] Hb.
    + rewrite Hb. lia.
    + specialize (IH H Hb). destruct (enabled c); lia.
Qed.

Lemma drained_spec s :
  drained s = true
  <-> forall b, In b (branches s) -> enabled b = true -> cursor b = buf_len s.
Proof.
  unfold drained. rewrite forallb_forall. split.
  - intros H b Hb He. specialize (H b Hb). rewrite He in H. cbn in H.
    now apply Nat.eqb_eq.
  - intros H b Hb. destruct (enabled b) eqn:He; [|reflexivity].
    cbn. apply Nat.eqb_eq. now apply H.
Qed.

Lemma resumes_settle s :
  resumes (settle s)
  = resumes s + (if input_stopped s && negb (input_stopped (settle s))
                 then 1 else 0).
Proof.
  unfold settle, resumes. destruct (drained s); cbn [sent input_stopped].
  - destruct (input_stopped s); cbn [andb negb].
    + rewrite filter_app, length_app. reflexivity.
    + lia.
  - rewrite andb_false_r. lia.
Qed.

Lemma settle_running s :
  input_stopped (settle s) = negb (drained s).
Proof. unfold settle. destruct (drained s); reflexivity. Qed.

Lemma settle_compacted s :
  input_stopped (settle s) = false ->
  buf_len (settle s) = 0
  /\ forall b, In b (branches (settle s)) -> cursor b = 0.
Proof.
  unfold settle. destruct (drained s); cbn; [|discriminate].
  intros _. split; [reflexivity|].
  intros b Hb. apply in_map_iff in Hb. destruct Hb as (c & <- & _).
  reflexivity.
Qed.

Lemma resumes_step (op : Op Sample) s :
  resumes (step op s)
  = resumes s + (if input_stopped s && negb (input_stopped (step op s))
                 then 1 else 0).
Proof.
  rewrite step_settle, resumes_settle.
  destruct (answered_stopped op s) as [-> E].
  unfold resumes. now rewrite E.
Qed.

Lemma resumes_run (ops : list (Op Sample)) :
  forall s, resumes (run ops s) = resumes s + drain_transitions ops s.
Proof.
  induction ops as [|op ops IH]; intros s; cbn [run drain_transitions].
  - lia.
  - rewrite IH, resumes_step. lia.
Qed.

Lemma write_samples_settles (accept : Sinks) (samples : list Sample) s :
  snd (write_samples accept samples s)
  = write_from_buffer accept (append_samples samples s).
Proof. reflexivity. Qed.

(** No cursor ever exceeds [buf_len]. *)
Lemma write_branch_le (accept : Sinks) (len : nat) (b : Branch) :
  cursor b <= len -> cursor (write_branch accept len b) <= len.
Proof.
  unfold write_branch. intros H.
  destruct (enabled b && (cursor b <? len)); cbn [cursor]; lia.
Qed.

Lemma cursors_ok_settle s : cursors_ok s -> cursors_ok (settle s).
Proof.
  unfold cursors_ok, settle. intros H.
  destruct (drained s); cbn [branches buf_len buf]; [|exact H].
  apply Forall_forall. intros b Hb.
  apply in_map_iff in Hb. destruct Hb as (c & <- & _). cbn. lia.
Qed.

Lemma cursors_ok_step (op : Op Sample) s :
  cursors_ok s -> cursors_ok (step op s).
Proof.
  intros H. rewrite step_settle. apply cursors_ok_settle.
  unfold cursors_ok in *. rewrite Forall_forall in H.
  apply Forall_forall. intros b Hb.
  destruct op as [samples accept | snk accept];
    cbn [answered absorbed_state write_pass append_samples resume_pass
         branches] in Hb;
    apply in_map_iff in Hb; destruct Hb as (c & <- & Hc);
    specialize (H c Hc).
  - change (buf_len (answered (Write samples accept) s))
      with (buf_len (append_samples samples s)).
    apply write_branch_le.
    unfold buf_len in *. cbn [append_samples buf]. rewrite length_app. lia.
  - change (buf_len (answered (Resume snk accept) s)) with (buf_len s).
    destruct (Nat.eqb (sink c) snk); [apply write_branch_le|]; exact H.
Qed.

(** C9.  A [write_samples] reports to its caller no more than the least
    cursor of the enabled branches, read when the sinks have answered, and
    no more than it was given.  Over any run of upstream writes and branch
    resumptions, the [resume_output] signals sent upstream are as many as
    the steps that take the splitter from the input-stopped condition to
    the running one; each step sends one exactly when it is such a step,
    and a step ends in the running condition exactly when every enabled
    branch's cursor has reached [buf_len], the buffer being emptied
    then. *)
Theorem C9_back_pressure (ops : list (Op Sample)) s
    (samples : list Sample) (accept : Sinks) :
  let s1 := absorbed_state accept samples s in
  fst (write_samples accept samples s) <= min_cursor s1
  /\ fst (write_samples accept samples s) <= length samples
  /\ (forall b, In b (branches s1) -> enabled b = true ->
        min_cursor s1 <= cursor b)
  /\ resumes (run ops s) = resumes s + drain_transitions ops s
  /\ (forall op s0,
        resumes (step op s0)
        = resumes s0
          + (if input_stopped s0 && negb (input_stopped (step op s0))
             then 1 else 0))
  /\ (forall op s0,
        input_stopped (step op s0) = false
        <-> (forall b, In b (branches (answered op s0)) ->
               enabled b = true -> cursor b = buf_len (answered op s0)))
  /\ (forall op s0,
        input_stopped (step op s0) = false ->
        buf_len (step op s0) = 0
        /\ forall b, In b (branches (step op s0)) -> cursor b = 0).
Proof.
  intros s1. cbn [write_samples fst]. fold s1.
  split; [lia|]. split.
  - pose proof (min_cursor_le_buf_len s1) as H.
    assert (buf_len s1 = buf_len s + length samples) as E
      by (unfold s1, buf_len; cbn; apply length_app).
    lia.
  - split; [exact (min_cursor_le_cursor s1)|].
    split; [exact (resumes_run ops s)|].
    split; [exact resumes_step|]. split.
    + intros op s0. rewrite step_settle, settle_running, <- drained_spec.
      destruct (drained (answered op s0)); cbn; split; congruence.
    + intros op s0. rewrite step_settle. apply settle_compacted.
Qed.

End Facts.

(** Scenario S1: two branches, the first accepting all it is offered, the
    second half of it; ten samples are written, then the second branch
    resumes and takes the rest. *)
Example S1_two_branch_back_pressure :
  let half : Sinks := fun snk offered =>
    if Nat.eqb snk 1 then offered else Nat.div offered 2 in
  let all : Sinks := fun _ offered => offered in
  let s0 := mkSplitter [mkBranch 1 true 0; mkBranch 2 true 0]
              (@nil nat) false [] in
  let r := write_samples half (seq 0 10) s0 in
  fst r = 5
  /\ map cursor (branches (snd r)) = [10; 5]
  /\ sent (snd r) = []
  /\ input_stopped (snd r) = true
  /\ sent (branch_resume_output all 2 (snd r)) = [resume_output]
  /\ buf (branch_resume_output all 2 (snd r)) = [].
Proof. vm_compute. repeat split. Qed.

End SplitterFacts.

(* ====================================================================== *)
(** * Further properties of the tone detector *)
(* ====================================================================== *)

Module ToneExtra.

Import Tone ToneStream ToneFacts.
Local Open Scope Z_scope.

Section Generic.

Context {F : Type} {FL : Floating F}.

Implicit Types d : ToneDetector F.

(** X1.  How a stream of samples is cut into buffers does not matter:
    calling [processSamples] once per buffer leaves the same detector and
    emits the same signals as one call on all the samples. *)
Theorem X1_feed_any_chunking d (chunks : list (list Z)) :
  feed d chunks = processSamples d (concat chunks).
Proof.
  revert d. induction chunks as [|buf rest IH]; intros d.
  - reflexivity.
  - cbn [feed concat]. rewrite processSamples_app.
    destruct (processSamples d buf) as [d1 s1]. cbn [fst snd].
    rewrite IH. destruct (processSamples d1 (concat rest)); reflexivity.
Qed.

Lemma processSamples_cons d (x : Z) (buf : list Z) :
  processSamples d (x :: buf)
  = (fst (processSamples (fst (sample_step d x)) buf),
     snd (sample_step d x) ++ snd (processSamples (fst (sample_step d x)) buf)).
Proof.
  cbn [processSamples]. destruct (sample_step d x) as [d1 s1].
  cbn [fst snd]. destruct (processSamples d1 buf); reflexivity.
Qed.

(** X2.  With [N >= 1] and [block_pos] within [0, N), after [len] further
    samples [block_pos] is [(block_pos + len) mod N] and the number of
    [valueChanged] emitted is [(block_pos + len) / N], wherever in a block
    the buffer starts. *)
Theorem X2_block_position d (buf : list Z) :
  1 <= N d -> 0 <= block_pos d < N d ->
  let d' := fst (processSamples d buf) in
  let sigs := snd (processSamples d buf) in
  block_pos d' = (block_pos d + Z.of_nat (length buf)) mod N d
  /\ Z.of_nat (length (values sigs))
     = (block_pos d + Z.of_nat (length buf)) / N d
  /\ N d' = N d.
Proof.
  revert d. induction buf as [|x buf IH]; intros d HN Hp; cbv zeta.
  - cbn [processSamples fst snd values length Z.of_nat].
    rewrite Z.add_0_r, Z.mod_small, Z.div_small by lia. repeat split.
  - rewrite processSamples_cons. cbn [fst snd].
    change (length (x :: buf)) with (S (length buf)). rewrite Nat2Z.inj_succ.
    rewrite values_app, length_app, Nat2Z.inj_add.
    destruct (Z_lt_le_dec (block_pos d + 1) (N d)) as [Hin | Hend].
    + rewrite sample_step_inner by exact Hin. cbn [fst snd values length].
      match goal with
      | |- context [processSamples ?e buf] =>
          specialize (IH e); set (d1 := e) in *
      end.
      cbv zeta in IH. subst d1. cbn [block_pos N] in IH.
      destruct IH as (H1 & H2 & H3); [lia | lia |].
      rewrite H1, H2, H3.
      replace (block_pos d + Z.succ (Z.of_nat (length buf)))
        with (block_pos d + 1 + Z.of_nat (length buf)) by lia.
      repeat split.
    + rewrite sample_step_boundary by exact Hend. cbv zeta. cbn [fst snd].
      set (r := getMagnitudeSquared (processSample d x)).
      specialize (IH (after_block d r)). cbv zeta in IH.
      cbn [block_pos N after_block] in IH.
      destruct IH as (H1 & H2 & H3); [lia | lia |].
      rewrite H1, H2, H3. cbn [values].
      rewrite values_threshold_test. cbn [length].
      assert (block_pos d + 1 = N d) as E by lia.
      replace (block_pos d + Z.succ (Z.of_nat (length buf)))
        with (Z.of_nat (length buf) + 1 * N d) by lia.
      rewrite Z.mod_add, Z.div_add by lia.
      rewrite Z.add_0_l. change (Z.of_nat 1) with 1.
      repeat split; lia.
Qed.

(** X3.  A block length of 1 or less (0 and negative lengths are accepted
    by the constructor) makes every sample a block of its own: each sample
    emits a [valueChanged], with the value of the one-sample block. *)
Theorem X3_degenerate_block_length d (buf : list Z) :
  N d <= 1 -> 0 <= block_pos d -> Q1 d = of_int 0 -> Q2 d = of_int 0 ->
  values (snd (processSamples d buf))
  = map (fun x => block_result (coeff d) [x]) buf.
Proof.
  revert d. induction buf as [|x buf IH]; intros d HN Hp H1 H2.
  - reflexivity.
  - rewrite processSamples_cons. cbn [fst snd].
    rewrite sample_step_boundary by lia. cbv zeta. cbn [fst snd].
    set (r := getMagnitudeSquared (processSample d x)).
    rewrite values_app. cbn [values]. rewrite values_threshold_test.
    cbn [app map]. f_equal.
    + unfold r. change (processSample d x) with (fold_left processSample [x] d).
      apply block_result_of_start; assumption.
    + apply (IH (after_block d r)); cbn [N block_pos Q1 Q2 after_block];
        auto; lia.
Qed.

(** One block from a block start, given the outcome of its threshold
    test. *)
Lemma block_outcome d (b : list Z) (ia : Z) (acts : list (Signal F)) :
  1 <= N d -> at_block_start d -> Z.of_nat (length b) = N d ->
  threshold_test (block_result (coeff d) b) (is_activated d) = (ia, acts) ->
  let d' := fst (processSamples d b) in
  snd (processSamples d b) = valueChanged (block_result (coeff d) b) :: acts
  /\ is_activated d' = ia
  /\ at_block_start d' /\ N d' = N d /\ coeff d' = coeff d.
Proof.
  intros HN Hs Hlen Ht.
  rewrite (processSamples_block d b HN Hs Hlen). cbv zeta. cbn [fst snd].
  rewrite Ht. cbn [fst snd].
  split; [reflexivity|].
  split; [cbn [after_block is_activated]; now rewrite Ht|].
  split; [apply after_block_start | split; reflexivity].
Qed.

Lemma threshold_test_below (r : F) (ia : Z) :
  below_threshold r -> ia <> 0 ->
  threshold_test r ia
  = (ia - 1, if ia - 1 =? 0 then [activated false] else []).
Proof.
  intros [Hge Hlt] Hia. unfold threshold_test. rewrite Hge, Hlt.
  destruct (Z.eqb_spec ia 0); [contradiction | reflexivity].
Qed.

(** X4.  Release takes exactly three blocks below the threshold.  From a
    block start with [is_activated = 3], after two blocks below the
    threshold nothing but their [valueChanged] has been emitted; a third
    block below the threshold then emits [activated(false)] and leaves
    [is_activated = 0], while a third block at or above it emits no
    [activated] at all and sets [is_activated] back to 3. *)
Theorem X4_release_after_exactly_three d (b1 b2 b3 : list Z) :
  1 <= N d -> at_block_start d -> is_activated d = 3 ->
  Z.of_nat (length b1) = N d -> Z.of_nat (length b2) = N d ->
  Z.of_nat (length b3) = N d ->
  let r1 := block_result (coeff d) b1 in
  let r2 := block_result (coeff d) b2 in
  let r3 := block_result (coeff d) b3 in
  below_threshold r1 -> below_threshold r2 ->
  let d' := fst (processSamples d (b1 ++ b2 ++ b3)) in
  let sigs := snd (processSamples d (b1 ++ b2 ++ b3)) in
  snd (processSamples d (b1 ++ b2)) = [valueChanged r1; valueChanged r2]
  /\ (below_threshold r3 ->
      sigs = [valueChanged r1; valueChanged r2; valueChanged r3;
              activated false]
      /\ is_activated d' = 0)
  /\ (fge r3 THRESHOLD = true ->
      sigs = [valueChanged r1; valueChanged r2; valueChanged r3]
      /\ is_activated d' = 3).
Proof.
  intros HN Hs Hia L1 L2 L3 r1 r2 r3 B1 B2 d' sigs.
  destruct (block_outcome d b1 2 [] HN Hs L1) as (S1 & I1 & St1 & N1 & C1).
  { rewrite Hia. fold r1. rewrite (threshold_test_below r1 3 B1) by lia.
    reflexivity. }
  set (d1 := fst (processSamples d b1)) in *.
  destruct (block_outcome d1 b2 1 []) as (S2 & I2 & St2 & N2 & C2);
    try lia; auto.
  { rewrite I1, C1. fold r2. rewrite (threshold_test_below r2 2 B2) by lia.
    reflexivity. }
  set (d2 := fst (processSamples d1 b2)) in *.
  rewrite C1 in S2. fold r1 in S1. fold r2 in S2.
  assert (processSamples d (b1 ++ b2 ++ b3)
          = (fst (processSamples d2 b3),
             [valueChanged r1; valueChanged r2] ++ snd (processSamples d2 b3)))
    as E.
  { rewrite processSamples_app. fold d1. rewrite S1.
    rewrite (processSamples_app b2 b3 d1). fold d2. rewrite S2.
    cbn [fst snd app]. reflexivity. }
  split; [|split].
  - rewrite processSamples_app. fold d1. rewrite S1, S2. reflexivity.
  - intros B3. unfold sigs, d'. rewrite E. cbn [fst snd].
    destruct (block_outcome d2 b3 0 [activated false])
      as (S3 & I3 & _); try lia; auto.
    { rewrite I2, C2, C1. fold r3.
      rewrite (threshold_test_below r3 1 B3) by lia. reflexivity. }
    rewrite S3, C2, C1. split; [reflexivity | exact I3].
  - intros H3. unfold sigs, d'. rewrite E. cbn [fst snd].
    destruct (block_outcome d2 b3 3 [])
      as (S3 & I3 & _); try lia; auto.
    { rewrite I2, C2, C1. fold r3. unfold threshold_test. rewrite H3.
      reflexivity. }
    rewrite S3, C2, C1. split; [reflexivity | exact I3].
Qed.

(** Blocks at or above the threshold, once the detector is active. *)
Lemma processSamples_held (blocks : list (list Z)) :
  forall d,
    1 <= N d -> at_block_start d -> is_activated d <> 0 ->
    Forall (fun b => Z.of_nat (length b) = N d
                     /\ fge (block_result (coeff d) b) THRESHOLD = true)
      blocks ->
    snd (processSamples d (concat blocks))
    = map (fun b => valueChanged (block_result (coeff d) b)) blocks
    /\ is_activated (fst (processSamples d (concat blocks))) <> 0.
Proof.
  induction blocks as [|b blocks IH]; intros d HN Hs Hia Hall.
  - cbn. split; [reflexivity | exact Hia].
  - inversion Hall as [|? ? [Hlen Hge] Hrest]; subst.
    destruct (block_outcome d b 3 [] HN Hs Hlen) as (S1 & I1 & St1 & N1 & C1).
    { unfold threshold_test. rewrite Hge.
      destruct (Z.eqb_spec (is_activated d) 0); [contradiction | reflexivity]. }
    cbn [concat map]. rewrite processSamples_app, S1. cbn [fst snd app].
    destruct (IH (fst (processSamples d b))) as (S2 & I2).
    + lia.
    + exact St1.
    + lia.
    + rewrite N1, C1. exact Hrest.
    + rewrite S2, C1. split; [reflexivity | exact I2].
Qed.

(** X5.  A sustained tone is reported once.  An inactive detector at a
    block start, given any number of whole blocks all at or above the
    threshold, emits [activated(true)] right after the first
    [valueChanged] and nothing but [valueChanged] after that; no
    [activated(false)] is emitted. *)
Theorem X5_sustained_tone_reported_once d (b : list Z)
    (blocks : list (list Z)) :
  1 <= N d -> at_block_start d -> is_activated d = 0 ->
  Forall (fun b => Z.of_nat (length b) = N d
                   /\ fge (block_result (coeff d) b) THRESHOLD = true)
    (b :: blocks) ->
  snd (processSamples d (concat (b :: blocks)))
  = valueChanged (block_result (coeff d) b) :: activated true
    :: map (fun b => valueChanged (block_result (coeff d) b)) blocks.
Proof.
  intros HN Hs Hia Hall.
  inversion Hall as [|? ? [Hlen Hge] Hrest]; subst.
  destruct (block_outcome d b 3 [activated true] HN Hs Hlen)
    as (S1 & I1 & St1 & N1 & C1).
  { unfold threshold_test. rewrite Hge, Hia. reflexivity. }
  cbn [concat]. rewrite processSamples_app, S1. cbn [fst snd app].
  destruct (processSamples_held blocks (fst (processSamples d b))) as (S2 & _).
  - lia.
  - exact St1.
  - lia.
  - rewrite N1, C1. exact Hrest.
  - rewrite S2, C1. reflexivity.
Qed.

(** The sample code is the sample's high byte, offset by 128. *)
Lemma usample_high_byte (x y : Z) :
  x / 256 = y / 256 -> usample x = usample y.
Proof.
  unfold usample. intros H.
  rewrite !Z.shiftr_div_pow2 by lia. change (2 ^ 8) with 256.
  replace (x + 32768) with (x + 128 * 256) by lia.
  replace (y + 32768) with (y + 128 * 256) by lia.
  rewrite !Z.div_add by lia. now rewrite H.
Qed.

Lemma sample_step_usample d (x y : Z) :
  usample x = usample y -> sample_step d x = sample_step d y.
Proof.
  intros H. unfold sample_step, processSample. rewrite H. reflexivity.
Qed.

(** X6.  The low 8 bits of a sample are ignored.  Two buffers whose
    samples agree after division by 256 drive the detector alike: same
    signals, same detector afterwards; for a 16-bit sample [x] the code
    entering the recurrence is [x / 256 + 128] (division rounding down). *)
Theorem X6_low_byte_ignored d (buf buf' : list Z) :
  Forall2 (fun x y => x / 256 = y / 256) buf buf' ->
  processSamples d buf = processSamples d buf'
  /\ (forall x, is_short x -> usample x = x / 256 + 128).
Proof.
  intros Hall. split.
  - revert d. induction Hall as [|x y buf buf' Hxy _ IH]; intros d.
    + reflexivity.
    + cbn [processSamples].
      rewrite (sample_step_usample d x y (usample_high_byte x y Hxy)).
      destruct (sample_step d y) as [d1 s1]. now rewrite IH.
  - intros x Hx. destruct (usample_short x Hx) as [-> _].
    rewrite Z.shiftr_div_pow2 by lia. change (2 ^ 8) with 256.
    replace (x + 32768) with (x + 128 * 256) by lia.
    now rewrite Z.div_add by lia.
Qed.

End Generic.

Section Binary64.

Lemma X2_block_position_witness :
  block_pos (fst (processSamples (d1000 3) [0; 1; 2; 3; 4; 5; 6])) = 7 mod 3
  /\ Z.of_nat
       (length (values (snd (processSamples (d1000 3) [0; 1; 2; 3; 4; 5; 6]))))
     = 7 / 3.
Proof.
  destruct (X2_block_position (d1000 3) [0; 1; 2; 3; 4; 5; 6])
    as (H1 & H2 & _).
  - vm_compute. discriminate.
  - vm_compute. split; [discriminate | reflexivity].
  - split; [exact H1 | exact H2].
Defined.

Lemma X3_degenerate_block_length_witness :
  values (snd (processSamples (d1000 0) [0; 256]))
  = [block_result coeff_1000Hz [0]; block_result coeff_1000Hz [256]].
Proof.
  refine (X3_degenerate_block_length (d1000 0) [0; 256] _ _ _ _).
  - vm_compute. discriminate.
  - vm_compute. discriminate.
  - reflexivity.
  - reflexivity.
Defined.

Lemma X4_release_after_exactly_three_witness :
  snd (processSamples (d1000_active 1) ([0] ++ [0] ++ [0]))
  = [valueChanged (block_result coeff_1000Hz [0]);
     valueChanged (block_result coeff_1000Hz [0]);
     valueChanged (block_result coeff_1000Hz [0]);
     activated false].
Proof.
  destruct (X4_release_after_exactly_three (d1000_active 1) [0] [0] [0])
    as (_ & H & _).
  - vm_compute. discriminate.
  - repeat split.
  - reflexivity.
  - reflexivity.
  - reflexivity.
  - reflexivity.
  - split; vm_compute; reflexivity.
  - split; vm_compute; reflexivity.
  - apply H. split; vm_compute; reflexivity.
Defined.

Lemma X5_sustained_tone_reported_once_witness :
  snd (processSamples (fresh 2%float 18)
         (concat [repeat 0 18; repeat 0 18]))
  = [valueChanged (block_result 2%float (repeat 0 18)); activated true;
     valueChanged (block_result 2%float (repeat 0 18))].
Proof.
  refine (X5_sustained_tone_reported_once (fresh 2%float 18) (repeat 0 18)
            [repeat 0 18] _ _ _ _).
  - vm_compute. discriminate.
  - repeat split.
  - reflexivity.
  - repeat constructor; vm_compute; reflexivity.
Defined.

Lemma X6_low_byte_ignored_witness :
  processSamples (d1000 2) [0; 300] = processSamples (d1000 2) [255; 511].
Proof.
  refine (proj1 (X6_low_byte_ignored (d1000 2) [0; 300] [255; 511] _)).
  repeat constructor.
Defined.

End Binary64.

End ToneExtra.

(* ====================================================================== *)
(** * Further properties of the hierarchical state machine *)
(* ====================================================================== *)

Module HFSMExtra.

Import HFSM HFSMLife HFSMFacts.

(** ** Replaying a log *)








(** What the handlers enter and exit, read off the chain. *)
Lemma entries_rev_exits (T : StateClass) (p : option StateObj) :
  entries_of T p = rev (exits_of T p).
Proof.
  induction T as [n | ParentT IH n]; cbn [entries_of exits_of];
    destruct (dynamic_cast _ p); cbn [rev app]; try reflexivity.
  now rewrite IH.
Qed.

Lemma exits_of_class (T : StateClass) (p q : option StateObj) :
  option_map typeId p = option_map typeId q -> exits_of T p = exits_of T q.
Proof.
  intros H.
  assert (forall X, dynamic_cast X p = dynamic_cast X q) as Hc.
  { intros X. destruct p as [a|], q as [b|]; cbn in *; congruence. }
  induction T as [n | ParentT IH n]; cbn [exits_of]; rewrite Hc;
    [reflexivity | now rewrite IH].
Qed.

Lemma exits_of_null (T : StateClass) : exits_of T None = chain T.
Proof.
  induction T as [n | ParentT IH n]; cbn [exits_of chain dynamic_cast];
    [reflexivity | now rewrite IH].
Qed.

Section MachineExtra.

Variable ContextT : Type.
Variable init : StateClass -> Code ContextT.
Variable entry : StateClass -> Hook ContextT.
Variable exit : StateClass -> Hook ContextT.
Variable timeoutEvent : StateClass -> option (Code ContextT).

Local Abbreviation SM := (StateMachine ContextT).
Local Abbreviation set_state := (setState init entry exit).
Local Abbreviation init_handler := (initHandler init entry exit).
Local Abbreviation finish := (finish_transition entry exit).

Implicit Types m : SM.

(** The transition proper, when [init] has returned with the current
    state as it was. *)
Lemma finish_no_redirect (old_state : option StateObj) (c : StateObj) m1 :
  m_state m1 = old_state ->
  m_state (finish old_state c m1) = Some c
  /\ next_addr (finish old_state c m1) = next_addr m1
  /\ log (finish old_state c m1)
     = log m1
       ++ match old_state with
          | Some a => map (EvExit a) (exits_of (typeId a) (Some c))
          | None => []
          end
       ++ [EvInstall c]
       ++ map (EvEntry c) (entries_of (typeId c) old_state)
       ++ match old_state with
          | Some a => [EvDelete a]
          | None => []
          end.
Proof.
  intros Hm. unfold finish_transition. rewrite Hm, ptr_eqb_refl.
  cbn [negb].
  destruct old_state as [a|]; cbn [delete emit m_state next_addr log].
  - destruct (entryHandler_fields ContextT entry (typeId c) c (Some a)
                (emit (EvInstall c)
                   (set_m_state (Some c)
                      (exitHandler exit (typeId a) a (Some c) m1))))
      as (S1 & N1 & L1).
    destruct (exitHandler_fields ContextT exit (typeId a) a (Some c) m1)
      as (S2 & N2 & L2).
    rewrite S1, N1, L1. cbn [emit set_m_state m_state next_addr log].
    rewrite N2, L2, <- !app_assoc. repeat split.
  - destruct (entryHandler_fields ContextT entry (typeId c) c None
                (emit (EvInstall c) (set_m_state (Some c) m1)))
      as (S1 & N1 & L1).
    rewrite S1, N1, L1. cbn [emit set_m_state m_state next_addr log app].
    rewrite <- !app_assoc, app_nil_r. repeat split.
Qed.

(** ** The live objects *)















(** An event function that goes on after its transition: the handler of
    [A1] calls [setState<B>()], which deletes the [A1] object, and then
    [setTimeout]. *)
Example handler_going_on_is_undefined :
  dispatch Demo.init Demo.entry Demo.exit 3
    (fun _ => SetState Demo.B (SetTimeout 5 (Ret _))) Demo.started
  = Fault.
Proof. vm_compute. reflexivity. Qed.


(** ** Faults *)

Lemma exec_no_fault (ss : StateClass -> SM -> Result SM) :
  (forall T m, ss T m <> Fault) ->
  forall (c : Code ContextT) m, exec ss c m <> Fault.
Proof.
  intros Hss.
  induction c as [| T k IH | ms k IH | k IH | k IH | c' k IH];
    intros m; cbn [exec]; auto; try discriminate.
  destruct (ss T m) as [m1| |] eqn:E; auto; try discriminate.
  now apply Hss in E.
Qed.

Lemma setState_no_fault (fuel : nat) :
  forall (T : StateClass) m, set_state fuel T m <> Fault.
Proof.
  induction fuel as [|fuel IH]; intros T m; [discriminate|].
  rewrite setState_unfold. cbv zeta.
  destruct (match m_state m with
            | Some o => typeid_eqb T (typeId o)
            | None => false
            end); [discriminate|].
  unfold initHandler.
  destruct (exec (set_state fuel) _ _) as [m1| |] eqn:E; try discriminate.
  now apply (exec_no_fault _ IH) in E.
Qed.

(** ** Entering and leaving *)

(** X9.  Entry mirrors exit.  The classes whose [entry] runs when a state
    object of class [T] is entered coming from a state of some class are
    those whose [exit] runs when an object of class [T] is left for a state
    of that class, in the opposite order. *)
Theorem X9_entry_mirrors_exit (T : StateClass) (this this' : StateObj)
    (p p' : option StateObj) m m' :
  option_map typeId p = option_map typeId p' ->
  exists l,
    log (exitHandler exit T this p m) = log m ++ map (EvExit this) l
    /\ log (entryHandler entry T this' p' m')
       = log m' ++ map (EvEntry this') (rev l).
Proof.
  intros Hp. exists (exits_of T p). split.
  - apply (exitHandler_fields ContextT exit T this p m).
  - rewrite (exits_of_class T p p' Hp), <- entries_rev_exits.
    apply (entryHandler_fields ContextT entry T this' p' m').
Qed.

(** X10.  The first transition.  With no current state (as in [start()]),
    a [setState<B>()] whose [init] returns without a nested transition
    having installed a state installs the new object and calls [entry]
    for every class of [B]'s chain, from the top state down to [B]; no
    [exit] is called and nothing is deleted. *)
Theorem X10_first_transition (fuel : nat) (B : StateClass) m m1 :
  let b := mkObj (next_addr m) B in
  m_state m = None ->
  init_handler fuel b (snd (new_state B m)) = Done m1 ->
  m_state m1 = None ->
  exists m',
    set_state (S fuel) B m = Done m'
    /\ m_state m' = Some b
    /\ log m' = log m1 ++ EvInstall b :: map (EvEntry b) (rev (chain B)).
Proof.
  intros b Hm Hinit Hm1.
  exists (finish None b m1).
  destruct (finish_no_redirect None b m1 Hm1) as (Hs & _ & Hl).
  split; [|split].
  - rewrite setState_unfold. cbv zeta. fold b. now rewrite Hm, Hinit.
  - exact Hs.
  - rewrite Hl. cbn [app typeId b].
    now rewrite entries_rev_exits, exits_of_null, app_nil_r.
Qed.

Lemma run_hook_timer_neutral (h : Hook ContextT) :
  forall m, timer_neutral h -> m_timer (run_hook h m) = m_timer m.
Proof.
  induction h as [| ms k IH | k IH | k IH | c k IH]; intros m Hn;
    cbn [run_hook timer_neutral] in *.
  - reflexivity.
  - destruct Hn.
  - destruct Hn.
  - apply (IH (m_ctx m) m), Hn.
  - rewrite (IH (set_m_ctx c m) Hn). reflexivity.
Qed.

Lemma entryHandler_timer (this : StateObj) (from : option StateObj)
    (T : StateClass) :
  forall m,
    (forall X, In X (entries_of T from) -> timer_neutral (entry X)) ->
    m_timer (entryHandler entry T this from m) = m_timer m.
Proof.
  induction T as [n | ParentT IH n]; intros m Hn;
    cbn [entryHandler entries_of] in *;
    destruct (dynamic_cast _ from); try reflexivity.
  - rewrite run_hook_timer_neutral; [reflexivity|]. apply Hn. now left.
  - rewrite run_hook_timer_neutral.
    + cbn [emit m_timer]. apply IH. intros X HX. apply Hn.
      apply in_or_app. now left.
    + apply Hn. apply in_or_app. right. now left.
Qed.

(** X11.  Moving into a substate keeps the timeout.  When the new class
    [B] derives from the class of the current state [a] and [init] does
    not redirect, no [exit] is called, so that the timeout is not cleared:
    [entry] is called for the classes of [B]'s chain strictly below the
    class of [a], top-down, [a] is deleted, and, these [entry] functions
    leaving the timer alone, the timer is as [init] left it. *)
Theorem X11_substate_keeps_timeout (fuel : nat) m m1 (a : StateObj)
    (B : StateClass) :
  let b := mkObj (next_addr m) B in
  m_state m = Some a ->
  typeId a <> B ->
  derives B (typeId a) = true ->
  init_handler fuel b (snd (new_state B m)) = Done m1 ->
  m_state m1 = Some a ->
  (forall X, In X (below (typeId a) B) -> timer_neutral (entry X)) ->
  exists m',
    set_state (S fuel) B m = Done m'
    /\ m_state m' = Some b
    /\ log m' = log m1
                ++ EvInstall b
                   :: map (EvEntry b) (rev (below (typeId a) B))
                ++ [EvDelete a]
    /\ m_timer m' = m_timer m1.
Proof.
  intros b Ha Hne Hder Hinit Hm1 Hneutral.
  assert (nearest_common_ancestor (typeId a) B = Some (typeId a)) as Hnca.
  { unfold nearest_common_ancestor.
    destruct (chain_head (typeId a)) as (l & ->). cbn [find].
    now rewrite <- derives_on_chain, Hder. }
  destruct (nearest_common_ancestor_split _ _ _ Hnca)
    as (preA & preB & EA & EB & HdA & HdB & HnA & HnB & HPA & HPB).
  assert (exits_of (typeId a) (Some b) = []) as Hex.
  { destruct (typeId a); cbn [exits_of dynamic_cast typeId b] in *;
      now rewrite Hder. }
  assert (entries_of B (Some a) = rev (below (typeId a) B)) as Hen.
  { rewrite (below_split _ _ _ EB HdB).
    apply (entries_of_split (Some a) (typeId a) preB B EB);
      cbn [dynamic_cast]; auto. }
  exists (finish (Some a) b m1).
  destruct (finish_no_redirect (Some a) b m1 Hm1) as (Hs & _ & Hl).
  split; [|split; [|split]].
  - rewrite setState_unfold. cbv zeta. fold b. rewrite Ha.
    assert (typeid_eqb B (typeId a) = false) as ->
      by (apply typeid_eqb_neq; congruence).
    now rewrite Hinit.
  - exact Hs.
  - rewrite Hl. cbn [typeId b]. rewrite Hex, Hen. reflexivity.
  - unfold finish_transition. rewrite Hm1, ptr_eqb_refl.
    cbn [negb delete emit m_timer].
    rewrite entryHandler_timer.
    + cbn [emit set_m_state m_timer].
      destruct (typeId a); cbn [exitHandler dynamic_cast typeId b] in *;
        now rewrite Hder.
    + cbn [typeId b]. rewrite Hen. intros X HX. apply Hneutral.
      now apply in_rev.
Qed.

End MachineExtra.


Lemma X9_entry_mirrors_exit_witness :
  exists l,
    log (exitHandler Demo.exit Demo.A1 Demo.a1 (Some Demo.b1) Demo.started)
    = log Demo.started ++ map (EvExit Demo.a1) l
    /\ log (entryHandler Demo.entry Demo.A1 Demo.a1 (Some Demo.b1')
              Demo.constructed)
       = log Demo.constructed ++ map (EvEntry Demo.a1) (rev l).
Proof.
  refine (X9_entry_mirrors_exit unit Demo.entry Demo.exit Demo.A1 Demo.a1
            Demo.a1 (Some Demo.b1) (Some Demo.b1') Demo.started
            Demo.constructed _).
  reflexivity.
Defined.

Lemma X10_first_transition_witness :
  exists m',
    setState Demo.init Demo.entry Demo.exit 1 Demo.B1 Demo.constructed
    = Done m'
    /\ m_state m' = Some (mkObj 0 Demo.B1)
    /\ log m' = log constructed_init_B1
                ++ EvInstall (mkObj 0 Demo.B1)
                   :: map (EvEntry (mkObj 0 Demo.B1)) (rev (chain Demo.B1)).
Proof.
  refine (X10_first_transition unit Demo.init Demo.entry Demo.exit 0 Demo.B1
            Demo.constructed constructed_init_B1 _ _ _).
  - reflexivity.
  - vm_compute. reflexivity.
  - reflexivity.
Defined.

Lemma X11_substate_keeps_timeout_witness :
  exists m',
    setState Demo.init Demo.exit Demo.exit 1 Demo.A1 in_A = Done m'
    /\ m_state m' = Some (mkObj 1 Demo.A1)
    /\ m_timer m' = mkTimer 500 true.
Proof.
  destruct (X11_substate_keeps_timeout unit Demo.init Demo.exit Demo.exit 0
              in_A in_A_init_A1 (mkObj 0 Demo.A) Demo.A1)
    as (m' & H1 & H2 & _ & H4).
  - reflexivity.
  - vm_compute. discriminate.
  - vm_compute. reflexivity.
  - vm_compute. reflexivity.
  - reflexivity.
  - intros X _. exact I.
  - exists m'. split; [exact H1|]. split; [exact H2 | exact H4].
Defined.

End HFSMExtra.

(* ====================================================================== *)
(** * The state machine when addresses are reused *)
(* ====================================================================== *)

Module HFSMReuseFacts.

Import HFSM HFSMFacts HFSMReuse.

Section Agreement.

Variable ContextT : Type.
Variable init : StateClass -> Code ContextT.
Variable entry : StateClass -> Hook ContextT.
Variable exit : StateClass -> Hook ContextT.

Local Abbreviation SM := (StateMachine ContextT).

Implicit Types m : SM.

Lemma new_state_never_reuse (T : StateClass) m :
  HFSMReuse.new_state never_reuse T m = HFSM.new_state T m.
Proof.
  unfold HFSMReuse.new_state, HFSM.new_state, never_reuse.
  now rewrite Nat.max_r by lia.
Qed.

Lemma finish_transition_agree (old_state : option StateObj)
    (state : StateObj) m1 :
  (ptr_eqb old_state (m_state m1) = true -> m_state m1 = old_state) ->
  HFSMReuse.finish_transition entry exit old_state state m1
  = HFSM.finish_transition entry exit old_state state m1.
Proof.
  intros H. unfold HFSMReuse.finish_transition, HFSM.finish_transition.
  destruct (ptr_eqb old_state (m_state m1)); cbn [negb]; [|reflexivity].
  now rewrite (H eq_refl).
Qed.

Lemma exec_agree (ss ss' : StateClass -> SM -> Result SM) :
  (forall T m, wf_machine m -> ss T m = ss' T m) ->
  (forall T m m', ss' T m = Done m' -> wf_machine m -> wf_machine m') ->
  forall (c : Code ContextT) m, wf_machine m -> exec ss c m = exec ss' c m.
Proof.
  intros Hag Hwf.
  induction c as [| T k IH | ms k IH | k IH | k IH | c' k IH];
    intros m Hm; cbn [exec]; auto.
  rewrite (Hag T m Hm).
  destruct (ss' T m) as [m1| |] eqn:E; auto.
  apply IH. exact (Hwf _ _ _ E Hm).
Qed.

(** With an allocator that never gives an address twice, the machine is
    the one of [HFSM]. *)
Lemma setState_never_reuse (fuel : nat) :
  forall (T : StateClass) m,
    wf_machine m ->
    HFSMReuse.setState init entry exit never_reuse fuel T m
    = HFSM.setState init entry exit fuel T m.
Proof.
  induction fuel as [|fuel IH]; intros T m Hm; [reflexivity|].
  cbn [HFSMReuse.setState HFSM.setState].
  rewrite new_state_never_reuse.
  destruct (HFSM.new_state T m) as [state m0] eqn:En.
  assert (m0 = snd (HFSM.new_state T m)) as Em0 by now rewrite En.
  assert (state = mkObj (next_addr m) T) as Est
    by (unfold HFSM.new_state in En; now injection En as <- _).
  destruct (match m_state m0 with
            | Some o => typeid_eqb T (typeId o)
            | None => false
            end); [reflexivity|].
  assert (wf_machine (emit (EvInit state) m0)) as Hwf0.
  { pose proof (evolves_new_state ContextT T m) as (_ & _ & Hw & _).
    rewrite <- Em0 in Hw. exact (Hw Hm). }
  rewrite (exec_agree _ (HFSM.setState init entry exit fuel) IH
             (fun T0 m1 m2 E => proj1 (proj2 (proj2
                (setState_evolves _ _ _ _ fuel T0 m1 m2 E))))
             (init T) _ Hwf0).
  destruct (exec (HFSM.setState init entry exit fuel) (init T)
              (emit (EvInit state) m0)) as [m1| |] eqn:E; try reflexivity.
  f_equal. apply finish_transition_agree. intros Hp.
  pose proof (exec_evolves _ _ (setState_evolves _ _ _ _ fuel) _ _ _ E)
    as (_ & _ & _ & [Hs | (o & Hs & Ho)]); [exact Hs|].
  exfalso. rewrite Hs in Hp. subst m0. cbn in Hp, Ho.
  destruct (m_state m) as [a|] eqn:Ea; [|discriminate].
  cbn [ptr_eqb] in Hp. apply Nat.eqb_eq in Hp.
  specialize (Hm a Ea). lia.
Qed.

End Agreement.

(** C4.  The claim fails on the code when [new] reuses an address.  The
    machine is in the state object of class [A] at address 0 and
    [setState<B>()] is called; the [init] of the candidate (at address 1)
    calls [setState<A1>()] and then [setState<B1>()], and the allocator
    gives the second of these the address 0, freed by the first.  When
    [init] returns the current state is another object, of class [B1],
    but at the address [old_state] holds: the test [old_state != m_state]
    does not see the change, and the transition goes on.  [exit] is called
    (on the [B1] object, through [old_state]), the candidate is installed
    and the [B1] object is deleted, where the claim has the candidate
    deleted and the [B1] object current.  With an allocator that reuses no
    address the same call abandons the candidate. *)
Theorem C4_redirect_twice_installs_candidate :
  let cand := mkObj 1 Demo.B in
  let nested := mkObj 0 Demo.B1 in
  HFSMReuse.initHandler init_twice Demo.exit Demo.exit reuse_last_freed 1
    cand (snd (HFSMReuse.new_state reuse_last_freed Demo.B in_A))
  = Done in_A_after_init
  /\ m_state in_A = Some (mkObj 0 Demo.A)
  /\ m_state in_A_after_init = Some nested
  /\ (exists m',
        HFSMReuse.setState init_twice Demo.exit Demo.exit reuse_last_freed 2
          Demo.B in_A = Done m'
        /\ m_state m' = Some cand
        /\ log m' = log in_A_after_init
                    ++ [EvExit nested Demo.B1; EvInstall cand;
                        EvDelete nested])
  /\ (exists m',
        HFSMReuse.setState init_twice Demo.exit Demo.exit never_reuse 2
          Demo.B in_A = Done m'
        /\ m_state m' = Some (mkObj 3 Demo.B1)
        /\ In (EvDelete cand) (log m')
        /\ ~ In (EvInstall cand) (log m')).
Proof.
  cbv zeta. split; [vm_compute; reflexivity|].
  split; [reflexivity|]. split; [reflexivity|]. split.
  - eexists. split; [vm_compute; reflexivity|]. split; reflexivity.
  - eexists. split; [vm_compute; reflexivity|]. split; [reflexivity|].
    split.
    + cbn. repeat (try (left; reflexivity); right).
    + cbn. intros H.
      repeat (destruct H as [H | H]; [discriminate|]). exact H.
Qed.

End HFSMReuseFacts.
